(** * Probability trees of [Networkx/AplicacionProb/App.py]

    A shallow embedding of the three functions of the program that build and
    analyse probability trees:

    - [crear_arbol_monedas], with its inner recursive closure [generar_nodos];
    - [crear_arbol_dado];
    - [analizar_grafo], and the sample-space listing of menu option 1;
    - [visualizar_arbol], up to the calls that draw, and the menu.

    The program stores its trees in a [networkx.DiGraph].  The few operations
    of that class the program calls are modelled in module [nx], on insertion
    ordered association lists, as Python dictionaries are.

    Probabilities are Python floats.  The embedding is written once over an
    arithmetic interface [Arith] and read at two instances: [binary64], the
    IEEE 754 double precision numbers the interpreter computes with, and
    [exact], the rationals the floats stand for. *)

From Stdlib Require Import ZArith List String Ascii Bool Lia QArith.
From Stdlib Require Import DecimalString.
From Stdlib Require Import PrimFloat Uint63 FloatOps SpecFloat FloatAxioms.
From Stdlib Require Import Permutation Sorted.
Import ListNotations.

Open Scope string_scope.
Open Scope Z_scope.

(** ** Numbers *)

(** The arithmetic the program performs on probabilities. *)
Class Arith := {
  num : Type;
  lit_1_0 : num;                (* the literal [1.0] *)
  lit_0_5 : num;                (* the literal [0.5] *)
  of_int : Z -> num;            (* an [int] promoted to [float] *)
  add : num -> num -> num;
  mul : num -> num -> num;
  div : num -> num -> num
}.

(** An [int] promoted to a double, for an [int] of magnitude below [2^63]:
    the nearest double, ties to even, as the interpreter converts.  For a
    larger [int] the interpreter still rounds, and from [2^1024] on it raises
    [OverflowError]; this definition does not follow it there, the 63 bits
    of [Uint63.of_Z] wrap around.  The [int]s of the program are levels,
    indices and counts of nodes; a property that converts a level of an
    arbitrary graph states the bound. *)
Definition float_of_Z (z : Z) : float :=
  if z <? 0 then PrimFloat.opp (PrimFloat.of_uint63 (Uint63.of_Z (- z)))
  else PrimFloat.of_uint63 (Uint63.of_Z z).

#[export] Instance binary64 : Arith := {|
  num := float;
  lit_1_0 := 1%float;
  lit_0_5 := 0.5%float;
  of_int := float_of_Z;
  add := PrimFloat.add;
  mul := PrimFloat.mul;
  div := PrimFloat.div
|}.

#[export] Instance exact : Arith := {|
  num := Q;
  lit_1_0 := 1%Q;
  lit_0_5 := (1 # 2)%Q;
  of_int := inject_Z;
  add := Qplus;
  mul := Qmult;
  div := Qdiv
|}.

(** ** Exceptions *)

(** The exceptions of the interpreter that matter here.  None of the
    functions of the program has a [raise] statement of its own. *)
Inductive exn : Set :=
| RecursionError      (* the recursion limit of the interpreter is reached *)
| KeyError            (* subscript of a dictionary with a missing key *)
| ZeroDivisionError   (* [/] with a zero divisor *)
| ValueError.         (* an invalid argument, as [max] of an empty sequence;
                         no function of the program raises it *)

Inductive result (A : Type) : Type :=
| Ok (a : A)
| Raise (e : exn).

Arguments Ok {A} a.
Arguments Raise {A} e.

Definition bind {A B : Type} (m : result A) (k : A -> result B) : result B :=
  match m with
  | Ok a => k a
  | Raise e => Raise e
  end.

Notation "x <- m ;; k" := (bind m (fun x => k))
  (at level 61, m at next level, right associativity).

(** [for x in xs: body], the body threading a state and possibly raising. *)
Fixpoint for_each {A S : Type} (xs : list A) (body : A -> S -> result S)
  (s : S) : result S :=
  match xs with
  | [] => Ok s
  | x :: xs' => s' <- body x s ;; for_each xs' body s'
  end.

(** ** Strings *)

(** [f"{z}"] for an [int]. *)
Definition str (z : Z) : string := NilZero.string_of_int (Z.to_int z).

(** [range(a, b)] *)
Definition range (a b : Z) : list Z :=
  map (fun k => a + Z.of_nat k) (seq 0 (Z.to_nat (b - a))).

(** [s.replace(old, new)]: every non-overlapping occurrence of [old], found
    from the left, becomes [new].  [skip] counts the characters of an
    occurrence still to be passed over. *)
Fixpoint replace_from (old new : string) (skip : nat) (s : string) : string :=
  match s with
  | EmptyString => EmptyString
  | String c s' =>
      match skip with
      | S k => replace_from old new k s'
      | O =>
          if String.prefix old s
          then new ++ replace_from old new (Nat.pred (String.length old)) s'
          else String c (replace_from old new O s')
      end
  end.

Definition replace (old new s : string) : string :=
  match old with
  | EmptyString =>
      (* Python puts [new] before every character and at the end *)
      new ++ String.concat "" (map (fun c => String c new) (list_ascii_of_string s))
  | _ => replace_from old new O s
  end.

(** ** The graph library *)

Module nx.
Section Graph.
Context {A : Arith}.

(** The attribute dictionary of a node.  The program only ever uses the keys
    ['prob'], ['nivel'] and ['suma']; a key that is absent is [None]. *)
Record attrs : Type := {
  prob : option num;
  nivel : option Z;
  suma : option Z
}.

Definition no_attrs : attrs := {| prob := None; nivel := None; suma := None |}.

Definition or_else {T : Type} (new old : option T) : option T :=
  match new with
  | Some _ => new
  | None => old
  end.

(** [old.update(new)] *)
Definition update_attrs (old new : attrs) : attrs :=
  {| prob := or_else (prob new) (prob old);
     nivel := or_else (nivel new) (nivel old);
     suma := or_else (suma new) (suma old) |}.

(** An edge with its ['label'] attribute. *)
Record edge : Type := {
  src : string;
  tgt : string;
  label : string
}.

(** A [DiGraph]: the node dictionary and the edges, both in insertion order. *)
Record DiGraph : Type := {
  nodes : list (string * attrs);
  edges : list edge
}.

Definition empty : DiGraph := {| nodes := []; edges := [] |}.

(** [list(G.nodes())] *)
Definition labels (G : DiGraph) : list string := map fst (nodes G).

(** [n in G] *)
Definition has_node (G : DiGraph) (n : string) : bool :=
  existsb (String.eqb n) (labels G).

(** [G.add_node(n, **a)]: a new node goes last; the attributes of a node
    that is already there are updated. *)
Definition add_node (n : string) (a : attrs) (G : DiGraph) : DiGraph :=
  if has_node G n
  then {| nodes := map (fun e => if String.eqb (fst e) n
                                 then (n, update_attrs (snd e) a) else e)
                       (nodes G);
          edges := edges G |}
  else {| nodes := nodes G ++ [(n, a)]; edges := edges G |}.

Definition is_edge (u v : string) (e : edge) : bool :=
  String.eqb (src e) u && String.eqb (tgt e) v.

(** [G.add_edge(u, v, label=l)]: end points that are missing are added with no
    attributes; an edge that is already there gets the new label. *)
Definition add_edge (u v l : string) (G : DiGraph) : DiGraph :=
  let G1 := if has_node G u then G else add_node u no_attrs G in
  let G2 := if has_node G1 v then G1 else add_node v no_attrs G1 in
  if existsb (is_edge u v) (edges G2)
  then {| nodes := nodes G2;
          edges := map (fun e => if is_edge u v e
                                 then {| src := u; tgt := v; label := l |}
                                 else e) (edges G2) |}
  else {| nodes := nodes G2;
          edges := edges G2 ++ [{| src := u; tgt := v; label := l |}] |}.

(** [G.nodes[n]] *)
Definition node (G : DiGraph) (n : string) : result attrs :=
  match find (fun e => String.eqb (fst e) n) (nodes G) with
  | Some e => Ok (snd e)
  | None => Raise KeyError
  end.

Definition number_of_nodes (G : DiGraph) : Z := Z.of_nat (List.length (nodes G)).

Definition number_of_edges (G : DiGraph) : Z := Z.of_nat (List.length (edges G)).

(** [list(G.successors(n))] and [list(G.predecessors(n))] *)
Definition successors (G : DiGraph) (n : string) : list string :=
  map tgt (filter (fun e => String.eqb (src e) n) (edges G)).

Definition predecessors (G : DiGraph) (n : string) : list string :=
  map src (filter (fun e => String.eqb (tgt e) n) (edges G)).

Definition out_degree (G : DiGraph) (n : string) : Z :=
  Z.of_nat (List.length (successors G n)).

Definition in_degree (G : DiGraph) (n : string) : Z :=
  Z.of_nat (List.length (predecessors G n)).

(** The number of edges of the longest walk that starts at [n], cut at
    [bound] edges. *)
Fixpoint longest_from (G : DiGraph) (bound : nat) (n : string) : nat :=
  match bound with
  | O => O
  | S b => list_max (map (fun m => S (longest_from G b m)) (successors G n))
  end.

(** [nx.is_directed_acyclic_graph(G)]: a graph of [k] nodes has a cycle
    exactly when it has a walk of [k] edges. *)
Definition is_directed_acyclic_graph (G : DiGraph) : bool :=
  let k := List.length (nodes G) in
  forallb (fun n => Nat.ltb (longest_from G k n) k) (labels G).

(** [nx.dag_longest_path_length(G)], every edge weighing 1; the library
    defines it on acyclic graphs, where no path has as many edges as the
    graph has nodes. *)
Definition dag_longest_path_length (G : DiGraph) : Z :=
  let k := List.length (nodes G) in
  Z.of_nat (list_max (map (longest_from G k) (labels G))).

End Graph.
End nx.

Import nx.

(** ** The program *)

Section App.
Context {A : Arith}.

(** The closure [generar_nodos] of [crear_arbol_monedas].  It reads
    [num_lanzamientos] and mutates the graph [G] of the enclosing call, so both
    are passed here, and the graph is returned.  [limit] is the number of
    nested calls of [generar_nodos] the interpreter still allows when the
    recursion starts: a call beyond it raises [RecursionError], which leaves
    the whole recursion.  It is not [sys.getrecursionlimit()] but less: the
    frames of the callers count against the limit of the interpreter, and so
    do the frames of the graph methods called at the deepest level. *)
Fixpoint generar_nodos (limit : nat) (num_lanzamientos : Z)
  (nivel : Z) (resultado_actual : string) (probabilidad_actual : num)
  (G : DiGraph) : result DiGraph :=
  match limit with
  | O => Raise RecursionError
  | S limit' =>
      if nivel =? num_lanzamientos then Ok G
      else
        (* Rama: Cara *)
        let nuevo_resultado_cara := resultado_actual ++ "C" in
        let nueva_prob_cara := mul probabilidad_actual lit_0_5 in
        let G := add_node nuevo_resultado_cara
                   {| prob := Some nueva_prob_cara;
                      nivel := Some (nivel + 1);
                      suma := None |} G in
        let G := add_edge resultado_actual nuevo_resultado_cara "C (0.5)" G in
        G <- generar_nodos limit' num_lanzamientos (nivel + 1)
               nuevo_resultado_cara nueva_prob_cara G ;;
        (* Rama: Sello *)
        let nuevo_resultado_sello := resultado_actual ++ "S" in
        let nueva_prob_sello := mul probabilidad_actual lit_0_5 in
        let G := add_node nuevo_resultado_sello
                   {| prob := Some nueva_prob_sello;
                      nivel := Some (nivel + 1);
                      suma := None |} G in
        let G := add_edge resultado_actual nuevo_resultado_sello "S (0.5)" G in
        generar_nodos limit' num_lanzamientos (nivel + 1)
          nuevo_resultado_sello nueva_prob_sello G
  end.

Definition raiz : attrs :=
  {| prob := Some lit_1_0; nivel := Some 0; suma := None |}.

Definition crear_arbol_monedas (limit : nat) (num_lanzamientos : Z)
  : result DiGraph :=
  let G := add_node "Inicio" raiz empty in
  generar_nodos limit num_lanzamientos 0 "Inicio" lit_1_0 G.

(** The two nested [for] loops of [crear_arbol_dado]; [1 / 6] divides two
    [int]s into a float. *)
Definition crear_arbol_dado : DiGraph :=
  let G := add_node "Inicio" raiz empty in
  fold_left (fun G i =>
    let nodo1 := str i in
    let G := add_node nodo1
               {| prob := Some (div (of_int 1) (of_int 6));
                  nivel := Some 1;
                  suma := None |} G in
    let G := add_edge "Inicio" nodo1 (str i ++ " (1/6)") G in
    fold_left (fun G j =>
      let nodo2 := str i ++ "," ++ str j in
      let prob_final :=
        mul (div (of_int 1) (of_int 6)) (div (of_int 1) (of_int 6)) in
      let G := add_node nodo2
                 {| prob := Some prob_final;
                    nivel := Some 2;
                    suma := Some (i + j) |} G in
      add_edge nodo1 nodo2 (str j ++ " (1/6)") G)
      (range 1 7) G)
    (range 1 7) G.

(** [[n for n in G.nodes() if G.out_degree(n) == 0]] *)
Definition hojas_de (G : DiGraph) : list string :=
  filter (fun n => out_degree G n =? 0) (labels G).

(** [sumas[suma] += 1], after [sumas[suma] = 0] when the key is new: a new key
    goes last in the dictionary. *)
Fixpoint contar (suma : Z) (sumas : list (Z * Z)) : list (Z * Z) :=
  match sumas with
  | [] => [(suma, 0 + 1)]
  | (k, c) :: rest =>
      if k =? suma then (k, c + 1) :: rest else (k, c) :: contar suma rest
  end.

Fixpoint insertar (k : Z) (l : list Z) : list Z :=
  match l with
  | [] => [k]
  | x :: l' => if k <=? x then k :: l else x :: insertar k l'
  end.

(** [sorted(keys)] *)
Definition sorted (l : list Z) : list Z := fold_right insertar [] l.

(** [sumas[k]] *)
Definition item (sumas : list (Z * Z)) (k : Z) : result Z :=
  match find (fun e => fst e =? k) sumas with
  | Some e => Ok (snd e)
  | None => Raise KeyError
  end.

(** [a / b] on two [int]s *)
Definition truediv (a b : Z) : result num :=
  if b =? 0 then Raise ZeroDivisionError
  else Ok (div (of_int a) (of_int b)).

(** One printed line [Suma = s: c formas, P = p]. *)
Record linea : Type := {
  l_suma : Z;
  l_formas : Z;
  l_prob : num
}.

(** What [analizar_grafo] prints, as a value.  [altura] is printed only when
    the graph is acyclic; the table of sums only for [tipo == "dado"]. *)
Record informe : Type := {
  nodos_totales : Z;
  aristas_totales : Z;
  nodos_hoja : Z;
  altura : option Z;
  distribucion : option (list linea)
}.

Definition analizar_grafo (G : DiGraph) (tipo : string) : result informe :=
  let hojas := hojas_de G in
  let altura :=
    if is_directed_acyclic_graph G
    then Some (dag_longest_path_length G) else None in
  dist <-
    (if String.eqb tipo "dado" then
       sumas <- for_each hojas (fun n sumas =>
                  a <- node G n ;;
                  let suma := match suma a with Some s => s | None => 0 end in
                  Ok (contar suma sumas)) [] ;;
       lineas <- for_each (sorted (map fst sumas)) (fun s lineas =>
                   c <- item sumas s ;;
                   p <- truediv c (Z.of_nat (List.length hojas)) ;;
                   Ok (lineas ++ [{| l_suma := s; l_formas := c; l_prob := p |}])%list)
                   [] ;;
       Ok (Some lineas)
     else Ok None) ;;
  Ok {| nodos_totales := number_of_nodes G;
        aristas_totales := number_of_edges G;
        nodos_hoja := Z.of_nat (List.length hojas);
        altura := altura;
        distribucion := dist |}.

(** Menu option 1 prints the sample space: the leaves, each with
    [h.replace('Inicio', '')]. *)
Definition espacio_muestral (G : DiGraph) : list string :=
  map (replace "Inicio" "") (hojas_de G).

End App.

(** ** The tree the coin builder is expected to build *)

Section Expected.
Context {A : Arith}.

(** [potencia x d] is the product of [d] factors [x], taken from [1.0] in
    the order the recursion multiplies. *)
Fixpoint potencia_desde (p x : num) (d : nat) : num :=
  match d with
  | O => p
  | S d' => potencia_desde (mul p x) x d'
  end.

Definition potencia (x : num) (d : nat) : num := potencia_desde lit_1_0 x d.

Definition nodo_moneda (p : num) (lv : Z) : attrs :=
  {| prob := Some (mul p lit_0_5); nivel := Some (lv + 1); suma := None |}.

(** The nodes below [res], [k] levels deep, in the order of the recursion. *)
Fixpoint nodos_bajo (k : nat) (res : string) (p : num) (lv : Z)
  : list (string * attrs) :=
  match k with
  | O => []
  | S k' =>
      List.app
        ((res ++ "C", nodo_moneda p lv)
           :: nodos_bajo k' (res ++ "C") (mul p lit_0_5) (lv + 1))
        ((res ++ "S", nodo_moneda p lv)
           :: nodos_bajo k' (res ++ "S") (mul p lit_0_5) (lv + 1))
  end.

(** The edges below [res], in the same order. *)
Fixpoint aristas_bajo (k : nat) (res : string) : list edge :=
  match k with
  | O => []
  | S k' =>
      List.app
        ({| src := res; tgt := res ++ "C"; label := "C (0.5)" |}
           :: aristas_bajo k' (res ++ "C"))
        ({| src := res; tgt := res ++ "S"; label := "S (0.5)" |}
           :: aristas_bajo k' (res ++ "S"))
  end.

(** The leaves below (and including) [res]. *)
Fixpoint hojas_bajo (k : nat) (res : string) : list string :=
  match k with
  | O => [res]
  | S k' => List.app (hojas_bajo k' (res ++ "C")) (hojas_bajo k' (res ++ "S"))
  end.

Definition arbol_monedas (k : nat) : DiGraph :=
  {| nodes := ("Inicio", raiz) :: nodos_bajo k "Inicio" lit_1_0 0;
     edges := aristas_bajo k "Inicio" |}.

End Expected.

(** ** Quantities the properties speak of *)

Section Quantities.
Context {A : Arith}.

(** The sum of the ['prob'] attributes of the nodes [hs], added one by one
    from the left, starting at [0].  The program computes no such sum; the
    properties of the leaves speak of it. *)
Definition suma_de_probabilidades (G : DiGraph) (hs : list string)
  : result num :=
  for_each hs (fun h acc =>
    a <- node G h ;;
    match prob a with
    | Some p => Ok (add acc p)
    | None => Raise KeyError
    end) (of_int 0).

(** The height in the words of the specification, section 4.3: "the maximum
    depth attribute over all nodes", [max(G.nodes[n]['nivel'] for n in G)].
    The program itself asks the graph library for the longest path; the two
    are compared below. *)
Definition altura_por_nivel (G : DiGraph) : result Z :=
  let nivel_de (e : string * attrs) : result Z :=
    match nivel (snd e) with
    | Some d => Ok d
    | None => Raise KeyError
    end in
  match nodes G with
  | [] => Raise ValueError
  | e :: rest =>
      d0 <- nivel_de e ;;
      for_each rest (fun e m => d <- nivel_de e ;; Ok (Z.max m d)) d0
  end.

(** The number of edges of [E] that leave [v], and that enter [v]. *)
Definition salidas (E : list edge) (v : string) : nat :=
  List.length (filter (fun e => String.eqb (src e) v) E).

Definition entradas (E : list edge) (v : string) : nat :=
  List.length (filter (fun e => String.eqb (tgt e) v) E).

(** The graph is a tree rooted at ["Inicio"]: the root carries probability
    [1.0] and level 0, it is the one node without an incoming edge, every
    other node has exactly one incoming edge, and there is no cycle. *)
Definition es_arbol (G : DiGraph) : Prop :=
  node G "Inicio" = Ok raiz /\
  filter (fun v => in_degree G v =? 0) (labels G) = ["Inicio"] /\
  (forall v, In v (labels G) -> v <> "Inicio" -> in_degree G v = 1) /\
  is_directed_acyclic_graph G = true.

(** Along every edge the level grows by one and the probability is
    multiplied by the branch probability [x]; so every node carries the
    product of as many factors [x] as its level counts. *)
Definition prob_por_camino (x : num) (G : DiGraph) : Prop :=
  (forall e, In e (edges G) ->
     exists au av d pu,
       node G (src e) = Ok au /\ node G (tgt e) = Ok av /\
       nivel au = Some d /\ nivel av = Some (d + 1) /\
       prob au = Some pu /\ prob av = Some (mul pu x)) /\
  (forall l a, In (l, a) (nodes G) ->
     exists d, nivel a = Some d /\ 0 <= d /\
               prob a = Some (potencia x (Z.to_nat d))).

(** The leaves whose ['suma'] attribute is [s]. *)
Definition hojas_con_suma (G : DiGraph) (s : Z) : list string :=
  filter (fun h =>
            match node G h with
            | Ok a => match suma a with Some x => x =? s | None => false end
            | Raise _ => false
            end) (hojas_de G).

(** The counts the printed table gives for the sum [s]. *)
Definition formas_de (ls : list linea) (s : Z) : list Z :=
  map l_formas (filter (fun l => l_suma l =? s) ls).

End Quantities.

(** Two doubles are equal within tolerance: [abs(x - y) <= 2**-30]. *)
Definition cerca (x y : float) : bool :=
  PrimFloat.leb (PrimFloat.abs (PrimFloat.sub x y)) 0x1p-30%float.


(** ** The rest of the program: drawing and menu *)

(** [s.count(sub)]: the non-overlapping occurrences of [sub] in [s], found
    from the left.  [skip] counts the characters of an occurrence still to
    be passed over. *)
Fixpoint count_from (sub : string) (skip : nat) (s : string) : nat :=
  match s with
  | EmptyString => O
  | String c s' =>
      match skip with
      | S k => count_from sub k s'
      | O =>
          if String.prefix sub s
          then S (count_from sub (Nat.pred (String.length sub)) s')
          else count_from sub O s'
      end
  end.

Definition count (sub s : string) : Z :=
  match sub with
  | EmptyString => Z.of_nat (String.length s) + 1
  | _ => Z.of_nat (count_from sub O s)
  end.

(** A non-negative rational rounded to the nearest integer, ties to even. *)
Definition redondear (q : Q) : Z :=
  let n := Qnum q in
  let d := Z.pos (Qden q) in
  let f := n / d in
  let r := n mod d in
  match 2 * r ?= d with
  | Gt => f + 1
  | Eq => if Z.even f then f else f + 1
  | Lt => f
  end.

Fixpoint ceros (n : nat) : string :=
  match n with
  | O => ""
  | S n' => "0" ++ ceros n'
  end.

(** [format(x, '.<d>f')] for the magnitude [q >= 0] of [x] and its sign: the
    decimal expansion correctly rounded to [d] places, ties to even. *)
Definition formato_decimal (d : nat) (negativo : bool) (q : Q) : string :=
  let escala := 10 ^ Z.of_nat d in
  let n := redondear (q * inject_Z escala) in
  let frac := str (n mod escala) in
  (if negativo then "-" else "")
  ++ str (n / escala)
  ++ match d with
     | O => ""
     | _ => "." ++ ceros (d - String.length frac) ++ frac
     end.

(** For a double, the expansion of the binary value itself. *)
Definition formato_float (d : nat) (x : float) : string :=
  match Prim2SF x with
  | S754_zero s => formato_decimal d s 0
  | S754_finite s m e =>
      formato_decimal d s (inject_Z (Z.pos m) * Qpower (2 # 1) e)
  | S754_infinity s => if s then "-inf" else "inf"
  | S754_nan => "nan"
  end.

(** What the drawing adds to the arithmetic: subtraction, two more literals
    and the fixed-point format of the labels. *)
Class Grafica (A : Arith) := {
  sub : @num A -> @num A -> @num A;
  lit_1_5 : @num A;                     (* the literal [1.5] *)
  lit_2_5 : @num A;                     (* the literal [2.5] *)
  formato : nat -> @num A -> string     (* [f"{x:.<d>f}"] *)
}.

#[export] Instance grafica_binary64 : Grafica binary64 :=
  Build_Grafica binary64 PrimFloat.sub 1.5%float 2.5%float formato_float.

#[export] Instance grafica_exact : Grafica exact :=
  Build_Grafica exact Qminus (3 # 2)%Q (5 # 2)%Q
    (fun d q => formato_decimal d (Qnum q <? 0)
                  (Z.abs (Qnum q) # Qden q)%Q).

Section Drawing.
Context {A : Arith} {GA : Grafica A}.

(** [if nivel not in niveles: niveles[nivel] = []] and then
    [niveles[nivel].append(node)]; a new level goes last. *)
Fixpoint agrupar (nv : Z) (n : string) (niveles : list (Z * list string))
  : list (Z * list string) :=
  match niveles with
  | [] => [(nv, [n])]
  | (k, ns) :: rest =>
      if k =? nv then (k, (ns ++ [n])%list) :: rest
      else (k, ns) :: agrupar nv n rest
  end.

(** The first loop of [visualizar_arbol]: the nodes by level. *)
Definition niveles_de (G : DiGraph) : result (list (Z * list string)) :=
  for_each (labels G) (fun n niveles =>
    a <- node G n ;;
    match nivel a with
    | Some nv => Ok (agrupar nv n niveles)
    | None => Raise KeyError
    end) [].

(** [pos[nodo] = xy] *)
Fixpoint asignar {V : Type} (k : string) (v : V) (d : list (string * V))
  : list (string * V) :=
  match d with
  | [] => [(k, v)]
  | (k', v') :: rest =>
      if String.eqb k' k then (k', v) :: rest else (k', v') :: asignar k v rest
  end.

(** The body of the inner loop, over [enumerate(nodos)] from index [i]. *)
Fixpoint posicionar (nv num_nodos i : Z) (nodos : list string)
  (pos : list (string * (num * num))) : list (string * (num * num)) :=
  match nodos with
  | [] => pos
  | nodo :: resto =>
      let x := mul (sub (of_int i) (div (of_int num_nodos) (of_int 2)))
                   lit_1_5 in
      let y := mul (of_int (- nv)) lit_2_5 in
      posicionar nv num_nodos (i + 1) resto (asignar nodo (x, y) pos)
  end.

(** The second loop: one row for each level. *)
Definition posiciones (niveles : list (Z * list string))
  : list (string * (num * num)) :=
  fold_left (fun pos fila =>
               posicionar (fst fila) (Z.of_nat (List.length (snd fila))) 0
                 (snd fila) pos)
            niveles [].

(** The colour of a node: the root test comes before the leaf test. *)
Definition color_de (G : DiGraph) (n : string) : string :=
  if String.eqb n "Inicio" then "lightgreen"
  else if out_degree G n =? 0 then "lightcoral"
  else "lightblue".

(** [G.nodes[n]['prob']] *)
Definition prob_de (G : DiGraph) (n : string) : result num :=
  a <- node G n ;;
  match prob a with
  | Some p => Ok p
  | None => Raise KeyError
  end.

(** [[f(x) for x in xs]], where [f] may raise. *)
Fixpoint map_result {X Y : Type} (f : X -> result Y) (xs : list X)
  : result (list Y) :=
  match xs with
  | [] => Ok []
  | x :: xs' => y <- f x ;; ys <- map_result f xs' ;; Ok (y :: ys)
  end.

Definition salto : string := String (ascii_of_nat 10) "".

(** The text drawn on a node. *)
Definition etiqueta_de (G : DiGraph) (n : string) : result string :=
  if String.eqb n "Inicio" then Ok ("Inicio" ++ salto ++ "P=1.0")
  else
    p <- prob_de G n ;;
    let resultado := replace "Inicio" "" n in
    Ok (resultado ++ salto ++ "P=" ++ formato 4 p).

(** What [visualizar_arbol] hands to the plotting library. *)
Record dibujo : Type := {
  pos : list (string * (num * num));
  node_color : list string;
  node_size : list num;
  etiquetas : list (string * string);
  edge_labels : list (string * string * string);
  titulo : string;
  archivo : string
}.

(** [visualizar_arbol], up to the calls that draw: the positions by level,
    the colours, the sizes, the node texts and the edge texts, computed in
    the order of the source.  The calls that follow in the source, which open
    the figure, draw, save and show it, are not modelled, and nothing here
    speaks of what they raise.  Nor is the [OverflowError] of [-nivel * 2.5]
    for a level from [2^1024] on: see [float_of_Z].  The edge texts are kept
    in the order the edges were added. *)
Definition visualizar_arbol (G : DiGraph) (titulo nombre_archivo : string)
  : result dibujo :=
  niveles <- niveles_de G ;;
  let pos := posiciones niveles in
  let node_colors := map (color_de G) (labels G) in
  node_sizes <- map_result (fun n =>
                  p <- prob_de G n ;;
                  Ok (add (mul p (of_int 2000)) (of_int 500))) (labels G) ;;
  labels <- map_result (fun n => t <- etiqueta_de G n ;; Ok (n, t))
              (labels G) ;;
  Ok {| pos := pos;
        node_color := node_colors;
        node_size := node_sizes;
        etiquetas := labels;
        edge_labels := map (fun e => (src e, tgt e, label e)) (edges G);
        titulo := titulo;
        archivo := nombre_archivo |}.

(** The loop of menu option 2, on the leaves of [G]: for each number of
    heads in [range(4)], how many leaves have it, and the share of all
    leaves. *)
Definition distribucion_caras (G : DiGraph) : result (list (Z * Z * num)) :=
  let hojas := hojas_de G in
  for_each (range 0 4) (fun num_caras lineas =>
    let resultados := filter (fun h => count "C" h =? num_caras) hojas in
    prob <- truediv (Z.of_nat (List.length resultados))
                    (Z.of_nat (List.length hojas)) ;;
    Ok (lineas ++ [(num_caras, Z.of_nat (List.length resultados), prob)])%list)
    [].

(** What one round of the menu computes. *)
Inductive salida : Type :=
| Monedas2 (d : dibujo) (r : informe) (omega : list string)
| Monedas3 (d : dibujo) (r : informe) (caras : list (Z * Z * num))
| Dados (d : dibujo) (r : informe)
| Adios
| NoValida.

(** The menu, for the line [opcion] read from the keyboard: the values one
    round computes, in the order of the source.  The calls that print and
    plot are left out, so a result [Ok] does not say that those calls raise
    nothing; [limit] bounds the nesting of [generar_nodos] only. *)
Definition menu (limit : nat) (opcion : string) : result salida :=
  if String.eqb opcion "1" then
    G <- crear_arbol_monedas limit 2 ;;
    d <- visualizar_arbol G
           "Árbol de Probabilidad - 2 Lanzamientos de Moneda"
           "arbol_2_monedas.png" ;;
    r <- analizar_grafo G "moneda" ;;
    Ok (Monedas2 d r (espacio_muestral G))
  else if String.eqb opcion "2" then
    G <- crear_arbol_monedas limit 3 ;;
    d <- visualizar_arbol G
           "Árbol de Probabilidad - 3 Lanzamientos de Moneda"
           "arbol_3_monedas.png" ;;
    r <- analizar_grafo G "moneda" ;;
    caras <- distribucion_caras G ;;
    Ok (Monedas3 d r caras)
  else if String.eqb opcion "3" then
    let G := crear_arbol_dado in
    d <- visualizar_arbol G
           "Árbol de Probabilidad - 2 Lanzamientos de Dado "
           "arbol_dados_completo.png" ;;
    r <- analizar_grafo G "dado" ;;
    Ok (Dados d r)
  else if String.eqb opcion "0" then Ok Adios
  else Ok NoValida.

End Drawing.

(** ** Counting outcomes *)

(** The sequences of [k] choices, heads before tails. *)
Fixpoint palabras (k : nat) : list string :=
  match k with
  | O => [""]
  | S k' => List.app (map (String.append "C") (palabras k'))
                     (map (String.append "S") (palabras k'))
  end.

(** The binomial coefficient, by Pascal's rule. *)
Fixpoint binomial (n k : nat) : nat :=
  match n, k with
  | _, O => 1
  | O, S _ => 0
  | S n', S k' => binomial n' k' + binomial n' k
  end.

(** A string of heads and tails only. *)
Definition de_monedas (w : string) : Prop :=
  Forall (fun c => c = "C"%char \/ c = "S"%char) (list_ascii_of_string w).

(** ** Quantities of the table and of the drawing *)

Section TableDefs.
Context {A : Arith}.
(** The sum a leaf is counted under: its ['suma'] attribute, or [0]. *)
Definition suma_o_cero (G : DiGraph) (h : string) : Z :=
  match node G h with
  | Ok a => match suma a with Some s => s | None => 0 end
  | Raise _ => 0
  end.
End TableDefs.

Section DrawingDefs.
Context {A : Arith} {GA : Grafica A}.

(** [G.nodes[n]['nivel']] *)
Definition nivel_de (G : DiGraph) (n : string) : result Z :=
  a <- node G n ;;
  match nivel a with
  | Some nv => Ok nv
  | None => Raise KeyError
  end.

(** The row of the level [k] among [niveles]; empty when there is none. *)
Definition fila (niveles : list (Z * list string)) (k : Z) : list string :=
  match find (fun e => fst e =? k) niveles with
  | Some e => snd e
  | None => []
  end.

(** The positions of a row of [num_nodos] nodes at level [nv], from the
    index [i] on. *)
Fixpoint posiciones_fila (nv num_nodos i : Z) (nodos : list string)
  : list (string * (num * num)) :=
  match nodos with
  | [] => []
  | nodo :: resto =>
      (nodo, (mul (sub (of_int i) (div (of_int num_nodos) (of_int 2)))
                  lit_1_5,
              mul (of_int (- nv)) lit_2_5))
        :: posiciones_fila nv num_nodos (i + 1) resto
  end.

(** The level read for a node, 0 when the read raises. *)
Definition nivel_o_cero (G : DiGraph) (n : string) : Z :=
  match nivel_de G n with
  | Ok nv => nv
  | Raise _ => 0
  end.

(** [L] holds the rows for the nodes [P]: one row for each level of a node of
    [P], with the nodes of that level in the order of [P]. *)
Definition filas_de (G : DiGraph) (P : list string)
  (L : list (Z * list string)) : Prop :=
  NoDup (map fst L) /\
  (forall n, In n P -> In (nivel_o_cero G n) (map fst L)) /\
  (forall k ns, In (k, ns) L ->
                ns = filter (fun n => nivel_o_cero G n =? k) P /\ ns <> []).

(** The node has the two attributes the drawing reads. *)
Definition completo (G : DiGraph) (n : string) : bool :=
  match node G n with
  | Ok a =>
      match nivel a, prob a with
      | Some _, Some _ => true
      | _, _ => false
      end
  | Raise _ => false
  end.

(** The level of the node, if it has one, is below [2^63] in magnitude: the
    range where [of_int] converts as the interpreter does, and far from the
    [OverflowError] of larger levels. *)
Definition nivel_pequeno (G : DiGraph) (n : string) : bool :=
  match node G n with
  | Ok a =>
      match nivel a with
      | Some nv => Z.abs nv <? 2 ^ 63
      | None => true
      end
  | Raise _ => true
  end.

(** The size of a node of probability [p]. *)
Definition tamano (p : num) : num := add (mul p (of_int 2000)) (of_int 500).

(** The positions, row after row, when no node is in two rows. *)
Definition posiciones_esperadas (L : list (Z * list string))
  : list (string * (num * num)) :=
  List.concat (map (fun e => posiciones_fila (fst e)
                          (Z.of_nat (List.length (snd e))) 0 (snd e)) L).

End DrawingDefs.

(** No two of the points are the same point, in double precision. *)
Fixpoint puntos_distintos (ps : list (float * float)) : bool :=
  match ps with
  | [] => true
  | p :: ps' =>
      forallb (fun q => negb (PrimFloat.eqb (fst p) (fst q)
                              && PrimFloat.eqb (snd p) (snd q))) ps'
      && puntos_distintos ps'
  end.

(** ** Strings: concatenation *)

Lemma append_assoc (a b c : string) : (a ++ b) ++ c = a ++ (b ++ c).
Proof. induction a as [|x a IH]; simpl; [reflexivity | now rewrite IH]. Qed.

Lemma append_nil_r (a : string) : a ++ "" = a.
Proof. induction a as [|x a IH]; simpl; [reflexivity | now rewrite IH]. Qed.

Lemma append_inv_head (a b c : string) : a ++ b = a ++ c -> b = c.
Proof.
  induction a as [|x a IH]; simpl; intros H; [exact H |].
  injection H as H. now apply IH.
Qed.

Lemma length_append (a b : string) :
  String.length (a ++ b) = (String.length a + String.length b)%nat.
Proof. induction a as [|x a IH]; simpl; [reflexivity | now rewrite IH]. Qed.

(** [l] lies strictly below [res]: it is [res] followed by some choices. *)
Definition bajo (res l : string) : Prop :=
  exists w, w <> "" /\ l = res ++ w.

Lemma bajo_neq (res l : string) : bajo res l -> l <> res.
Proof.
  intros (w & Hw & ->) H. apply Hw.
  apply (append_inv_head res). now rewrite append_nil_r.
Qed.

Lemma bajo_hijo (res c : string) : c <> "" -> bajo res (res ++ c).
Proof. intros Hc. now exists c. Qed.

Lemma bajo_trans (res c l : string) : bajo (res ++ c) l -> bajo res l.
Proof.
  intros (w & Hw & ->). exists (c ++ w). split.
  - destruct c; simpl; [exact Hw | discriminate].
  - apply append_assoc.
Qed.

Lemma bajo_length (res l : string) :
  bajo res l -> (String.length res < String.length l)%nat.
Proof.
  intros (w & Hw & ->). rewrite length_append.
  destruct w; [contradiction | simpl; lia].
Qed.

(** The two branches of a node share no label. *)
Lemma ramas_disjuntas (res w w' : string) :
  (res ++ "C") ++ w <> (res ++ "S") ++ w'.
Proof.
  rewrite !append_assoc. intros H. apply append_inv_head in H. discriminate.
Qed.

(** ** The graph operations on fresh nodes and edges *)

Section GraphFacts.
Context {A : Arith}.

Lemma has_node_In (G : DiGraph) (n : string) :
  has_node G n = true <-> In n (labels G).
Proof.
  unfold has_node. rewrite existsb_exists. split.
  - intros (x & Hx & E). apply String.eqb_eq in E. now subst.
  - intros H. exists n. split; [exact H | apply String.eqb_refl].
Qed.

Lemma has_node_fresh (G : DiGraph) (n : string) :
  ~ In n (labels G) -> has_node G n = false.
Proof.
  intros H. destruct (has_node G n) eqn:E; [| reflexivity].
  apply has_node_In in E. contradiction.
Qed.

Lemma add_node_fresh (n : string) (a : attrs) (G : DiGraph) :
  ~ In n (labels G) ->
  add_node n a G = {| nodes := (nodes G ++ [(n, a)])%list; edges := edges G |}.
Proof. intros H. unfold add_node. now rewrite has_node_fresh. Qed.

Lemma add_edge_fresh (u v l : string) (G : DiGraph) :
  In u (labels G) -> In v (labels G) ->
  (forall e, In e (edges G) -> tgt e <> v) ->
  add_edge u v l G =
  {| nodes := nodes G;
     edges := (edges G ++ [{| src := u; tgt := v; label := l |}])%list |}.
Proof.
  intros Hu Hv Hnew. unfold add_edge.
  apply has_node_In in Hu. rewrite Hu.
  apply has_node_In in Hv. rewrite Hv.
  destruct (existsb (is_edge u v) (edges G)) eqn:E; [| reflexivity].
  apply existsb_exists in E. destruct E as (e & He & E).
  unfold is_edge in E. apply andb_true_iff in E. destruct E as [_ E].
  apply String.eqb_eq in E. now apply Hnew in He.
Qed.

(** Every label below [res] lies in one of its two branches. *)
Lemma nodos_bajo_rama (k : nat) (res : string) (p : num) (lv : Z) (l : string) :
  In l (map fst (nodos_bajo k res p lv)) ->
  (exists w, l = (res ++ "C") ++ w) \/ (exists w, l = (res ++ "S") ++ w).
Proof.
  revert res p lv. induction k as [|k IH]; intros res p lv; simpl; [tauto |].
  intros [<- | H];
    [| rewrite map_app in H; apply in_app_iff in H; simpl in H;
       destruct H as [H | [<- | H]]].
  - left. exists "". now rewrite append_nil_r.
  - left. apply IH in H. destruct H as [(w & ->) | (w & ->)].
    + exists ("C" ++ w). now rewrite (append_assoc (res ++ "C")).
    + exists ("S" ++ w). now rewrite (append_assoc (res ++ "C")).
  - right. exists "". now rewrite append_nil_r.
  - right. apply IH in H. destruct H as [(w & ->) | (w & ->)].
    + exists ("C" ++ w). now rewrite (append_assoc (res ++ "S")).
    + exists ("S" ++ w). now rewrite (append_assoc (res ++ "S")).
Qed.

Lemma nodos_bajo_bajo (k : nat) (res : string) (p : num) (lv : Z) (l : string) :
  In l (map fst (nodos_bajo k res p lv)) -> bajo res l.
Proof.
  intros H. apply nodos_bajo_rama in H.
  destruct H as [(w & ->) | (w & ->)]; rewrite append_assoc;
    (eexists; split; [| reflexivity]; discriminate).
Qed.

(** The targets of the edges below [res] are the nodes below [res], one
    edge for each node, in the same order. *)
Lemma aristas_bajo_tgt (k : nat) (res : string) (p : num) (lv : Z) :
  map tgt (aristas_bajo k res) = map fst (nodos_bajo k res p lv).
Proof.
  revert res p lv. induction k as [|k IH]; intros res p lv; simpl;
    [reflexivity |].
  rewrite !map_app. simpl. f_equal. f_equal; [| f_equal]; apply IH.
Qed.

(** The recursion adds the expected nodes and edges, and nothing else, to a
    graph that has [res] and nothing below it. *)
Lemma generar_nodos_spec (k : nat) :
  forall (limit : nat) (n lv : Z) (res : string) (p : num) (G : DiGraph),
    n - lv = Z.of_nat k ->
    (k < limit)%nat ->
    In res (labels G) ->
    (forall l, bajo res l -> ~ In l (labels G)) ->
    (forall e, In e (edges G) -> In (tgt e) (labels G)) ->
    generar_nodos limit n lv res p G =
    Ok {| nodes := (nodes G ++ nodos_bajo k res p lv)%list;
          edges := (edges G ++ aristas_bajo k res)%list |}.
Proof.
  induction k as [|k IH]; intros limit n lv res p G Hk Hl Hres Hfresh Hedges.
  - destruct limit as [|limit]; [lia |]. simpl.
    replace (lv =? n) with true by (symmetry; apply Z.eqb_eq; lia).
    rewrite !app_nil_r. now destruct G.
  - destruct limit as [|limit]; [lia |]. simpl.
    replace (lv =? n) with false by (symmetry; apply Z.eqb_neq; lia).
    assert (HC : bajo res (res ++ "C")) by (apply bajo_hijo; discriminate).
    assert (HS : bajo res (res ++ "S")) by (apply bajo_hijo; discriminate).
    (* first branch *)
    rewrite add_node_fresh by (apply Hfresh, HC).
    rewrite add_edge_fresh; cycle 1.
    { unfold labels. simpl. rewrite map_app, in_app_iff. now left. }
    { unfold labels. simpl. rewrite map_app, in_app_iff. right. now left. }
    { simpl. intros e He E. apply Hedges in He. rewrite E in He.
      now apply (Hfresh _ HC). }
    rewrite (IH limit n (lv + 1) (res ++ "C")); cycle 1.
    { lia. }
    { lia. }
    { unfold labels. simpl. rewrite map_app, in_app_iff. right. now left. }
    { unfold labels. simpl. intros l Hl'. rewrite map_app, in_app_iff.
      intros [H | [H | []]].
      - apply (Hfresh l); [now apply bajo_trans in Hl' | exact H].
      - apply bajo_neq in Hl'. now apply Hl'. }
    { unfold labels. simpl. intros e He. rewrite map_app, in_app_iff.
      apply in_app_iff in He. destruct He as [He | [<- | []]].
      - left. now apply Hedges.
      - right. now left. }
    simpl.
    (* second branch *)
    assert (HSnew : ~ In (res ++ "S")
                      (map fst (List.app
                                  (List.app (nodes G)
                                     [(res ++ "C", nodo_moneda p lv)])
                                  (nodos_bajo k (res ++ "C") (mul p lit_0_5)
                                     (lv + 1))))).
    { rewrite !map_app, !in_app_iff. simpl. intros [[H | [H | []]] | H].
      - now apply (Hfresh _ HS).
      - apply (ramas_disjuntas res "" ""). now rewrite !append_nil_r.
      - apply nodos_bajo_bajo in H. destruct H as (w & _ & H).
        apply (ramas_disjuntas res w ""). now rewrite append_nil_r. }
    rewrite add_node_fresh by exact HSnew.
    rewrite add_edge_fresh; cycle 1.
    { unfold labels. simpl. rewrite !map_app, !in_app_iff. now do 3 left. }
    { unfold labels. simpl. rewrite !map_app, !in_app_iff. right. now left. }
    { simpl. intros e He E. apply HSnew. rewrite <- E. clear E HSnew.
      rewrite !map_app, !in_app_iff. simpl.
      rewrite !in_app_iff in He. simpl in He.
      destruct He as [[He | [<- | []]] | He].
      - do 2 left. now apply Hedges.
      - left. right. now left.
      - right. rewrite <- (aristas_bajo_tgt k _ (mul p lit_0_5) (lv + 1)).
        now apply in_map. }
    rewrite (IH limit n (lv + 1) (res ++ "S")); cycle 1.
    { lia. }
    { lia. }
    { unfold labels. simpl. rewrite !map_app, !in_app_iff. right. now left. }
    { unfold labels. simpl. intros l Hl'. rewrite !map_app, !in_app_iff. simpl.
      intros [[[H | [H | []]] | H] | [H | []]].
      - apply (Hfresh l); [now apply bajo_trans in Hl' | exact H].
      - destruct Hl' as (w & _ & Hl'). rewrite Hl' in H.
        apply (ramas_disjuntas res "" w). now rewrite append_nil_r.
      - apply nodos_bajo_bajo in H. destruct H as (w' & _ & H).
        destruct Hl' as (w & _ & Hl'). rewrite Hl' in H.
        now apply (ramas_disjuntas res w' w).
      - apply bajo_neq in Hl'. now apply Hl'. }
    { unfold labels. simpl. intros e He.
      rewrite !map_app, !in_app_iff. simpl.
      rewrite !in_app_iff in He. simpl in He.
      destruct He as [[[He | [<- | []]] | He] | [<- | []]].
      - do 3 left. now apply Hedges.
      - do 2 left. right. now left.
      - left. right.
        rewrite <- (aristas_bajo_tgt k _ (mul p lit_0_5) (lv + 1)).
        now apply in_map.
      - right. now left. }
    simpl. unfold nodo_moneda. f_equal. f_equal.
    + now rewrite <- !app_assoc.
    + now rewrite <- !app_assoc.
Qed.

End GraphFacts.

(** ** The shape of the expected coin tree *)

Section Shape.
Context {A : Arith}.

Lemma out_degree_salidas (G : DiGraph) (v : string) :
  out_degree G v = Z.of_nat (salidas (edges G) v).
Proof. unfold out_degree, successors, salidas. now rewrite length_map. Qed.

Lemma in_degree_entradas (G : DiGraph) (v : string) :
  in_degree G v = Z.of_nat (entradas (edges G) v).
Proof. unfold in_degree, predecessors, entradas. now rewrite length_map. Qed.

Lemma salidas_app (E1 E2 : list edge) (v : string) :
  salidas (E1 ++ E2) v = (salidas E1 v + salidas E2 v)%nat.
Proof. unfold salidas. now rewrite filter_app, length_app. Qed.

Lemma salidas_none (E : list edge) (v : string) :
  (forall e, In e E -> src e <> v) -> salidas E v = O.
Proof.
  unfold salidas. induction E as [|e E IH]; intros H; [reflexivity |].
  simpl. destruct (String.eqb_spec (src e) v) as [Heq | _].
  - exfalso. apply (H e); [now left | exact Heq].
  - apply IH. intros e' He'. apply H. now right.
Qed.

(** Every edge below [res] leaves [res] or a node below it, and adds one
    choice to the label it leaves. *)
Lemma aristas_bajo_src (k : nat) (res : string) (e : edge) :
  In e (aristas_bajo k res) -> exists w, src e = res ++ w.
Proof.
  revert res. induction k as [|k IH]; intros res; simpl; [tauto |].
  intros [<- | H]; [exists ""; simpl; now rewrite append_nil_r |].
  apply in_app_iff in H. simpl in H. destruct H as [H | [<- | H]].
  - apply IH in H. destruct H as (w & ->). exists ("C" ++ w).
    apply append_assoc.
  - exists "". simpl. now rewrite append_nil_r.
  - apply IH in H. destruct H as (w & ->). exists ("S" ++ w).
    apply append_assoc.
Qed.

Lemma aristas_bajo_hijo (k : nat) (res : string) (e : edge) :
  In e (aristas_bajo k res) ->
  tgt e = src e ++ "C" \/ tgt e = src e ++ "S".
Proof.
  revert res. induction k as [|k IH]; intros res; simpl; [tauto |].
  intros [<- | H]; [now left |].
  apply in_app_iff in H. simpl in H. destruct H as [H | [<- | H]].
  - now apply IH in H.
  - now right.
  - now apply IH in H.
Qed.

Lemma salidas_otra_rama (k : nat) (res l : string) (c d : string) :
  (forall w w', (res ++ c) ++ w <> (res ++ d) ++ w') ->
  (l = res ++ c \/ bajo (res ++ c) l) ->
  salidas (aristas_bajo k (res ++ d)) l = O.
Proof.
  intros Hdis Hl. apply salidas_none. intros e He E.
  apply aristas_bajo_src in He. destruct He as (w' & He).
  rewrite E in He. destruct Hl as [-> | (w & _ & ->)].
  - apply (Hdis "" w'). now rewrite append_nil_r.
  - now apply (Hdis w w').
Qed.

Lemma ramas_disjuntas' (res w w' : string) :
  (res ++ "S") ++ w <> (res ++ "C") ++ w'.
Proof. intros H. symmetry in H. now apply ramas_disjuntas in H. Qed.

(** The nodes without outgoing edges are the nodes at the last level. *)
Lemma hojas_bajo_filter (k : nat) :
  forall (res : string) (p : num) (lv : Z) (E : list edge),
    (forall l, l = res \/ bajo res l ->
               salidas E l = salidas (aristas_bajo k res) l) ->
    filter (fun n => Nat.eqb (salidas E n) O)
           (res :: map fst (nodos_bajo k res p lv)) =
    hojas_bajo k res.
Proof.
  induction k as [|k IH]; intros res p lv E HE.
  - simpl. rewrite HE by now left. reflexivity.
  - assert (HC : bajo res (res ++ "C")) by (apply bajo_hijo; discriminate).
    assert (HS : bajo res (res ++ "S")) by (apply bajo_hijo; discriminate).
    cbn [filter]. rewrite HE by now left.
    cbn [aristas_bajo nodos_bajo hojas_bajo]. rewrite map_app, filter_app.
    replace (Nat.eqb _ O) with false; cycle 1.
    { unfold salidas. simpl. now rewrite String.eqb_refl. }
    f_equal.
    + apply (IH (res ++ "C") (mul p lit_0_5) (lv + 1) E).
      intros l Hl. rewrite HE; cycle 1.
      { right. destruct Hl as [-> | Hl]; [exact HC | now apply bajo_trans in Hl]. }
      change (aristas_bajo (S k) res) with
        (([{| src := res; tgt := res ++ "C"; label := "C (0.5)" |}]
            ++ aristas_bajo k (res ++ "C"))
           ++ [{| src := res; tgt := res ++ "S"; label := "S (0.5)" |}]
           ++ aristas_bajo k (res ++ "S"))%list.
      rewrite !salidas_app.
      rewrite (salidas_otra_rama k res l "C" "S" (ramas_disjuntas res) Hl).
      assert (Hne : l <> res).
      { destruct Hl as [-> | Hl]; [now apply bajo_neq |].
        apply bajo_neq. now apply bajo_trans in Hl. }
      unfold salidas at 1 3. simpl.
      apply not_eq_sym in Hne. apply String.eqb_neq in Hne. rewrite Hne.
      simpl. lia.
    + apply (IH (res ++ "S") (mul p lit_0_5) (lv + 1) E).
      intros l Hl. rewrite HE; cycle 1.
      { right. destruct Hl as [-> | Hl]; [exact HS | now apply bajo_trans in Hl]. }
      change (aristas_bajo (S k) res) with
        (([{| src := res; tgt := res ++ "C"; label := "C (0.5)" |}]
            ++ aristas_bajo k (res ++ "C"))
           ++ [{| src := res; tgt := res ++ "S"; label := "S (0.5)" |}]
           ++ aristas_bajo k (res ++ "S"))%list.
      rewrite !salidas_app.
      rewrite (salidas_otra_rama k res l "S" "C" (ramas_disjuntas' res) Hl).
      assert (Hne : l <> res).
      { destruct Hl as [-> | Hl]; [now apply bajo_neq |].
        apply bajo_neq. now apply bajo_trans in Hl. }
      unfold salidas at 1 2. simpl.
      apply not_eq_sym in Hne. apply String.eqb_neq in Hne. rewrite Hne.
      simpl. lia.
Qed.

Lemma hojas_de_arbol_monedas (k : nat) :
  hojas_de (arbol_monedas k) = hojas_bajo k "Inicio".
Proof.
  unfold hojas_de.
  rewrite (filter_ext _ (fun n => Nat.eqb (salidas (edges (arbol_monedas k)) n) O)).
  - apply hojas_bajo_filter. reflexivity.
  - intros n. rewrite out_degree_salidas.
    destruct (salidas _ n); reflexivity.
Qed.

Lemma length_hojas_bajo (k : nat) (res : string) :
  List.length (hojas_bajo k res) = (2 ^ k)%nat.
Proof.
  revert res. induction k as [|k IH]; intros res; [reflexivity |].
  cbn [hojas_bajo]. rewrite length_app, !IH. simpl. lia.
Qed.

Lemma hojas_bajo_length (k : nat) (res h : string) :
  In h (hojas_bajo k res) ->
  String.length h = (String.length res + k)%nat.
Proof.
  revert res. induction k as [|k IH]; intros res; simpl.
  - intros [<- | []]. lia.
  - intros H. apply in_app_iff in H.
    destruct H as [H | H]; apply IH in H; rewrite H, length_append; simpl; lia.
Qed.

End Shape.

(** ** Attributes and degrees in the expected coin tree *)

Section Attributes.
Context {A : Arith}.

(** A node [j] levels below [res] carries [j] more factors [0.5] and a level
    [j] higher. *)
Lemma nodos_bajo_attrs (k : nat) :
  forall (res : string) (p : num) (lv : Z) (l : string) (a : attrs),
    In (l, a) (nodos_bajo k res p lv) ->
    exists j : nat,
      (1 <= j <= k)%nat /\
      String.length l = (String.length res + j)%nat /\
      a = {| prob := Some (potencia_desde p lit_0_5 j);
             nivel := Some (lv + Z.of_nat j);
             suma := None |}.
Proof.
  induction k as [|k IH]; intros res p lv l a; simpl; [tauto |].
  assert (Hstep : forall c, String.length c = 1%nat ->
            In (l, a) (nodos_bajo k (res ++ c) (mul p lit_0_5) (lv + 1)) ->
            exists j : nat,
              (1 <= j <= S k)%nat /\
              String.length l = (String.length res + j)%nat /\
              a = {| prob := Some (potencia_desde p lit_0_5 j);
                     nivel := Some (lv + Z.of_nat j);
                     suma := None |}).
  { intros c Hc H. apply IH in H. destruct H as (j & Hj & Hlen & ->).
    exists (S j). split; [lia |]. split.
    - rewrite Hlen, length_append, Hc. lia.
    - simpl potencia_desde. do 2 f_equal. lia. }
  assert (Hhere : forall c, String.length c = 1%nat ->
            (res ++ c, nodo_moneda p lv) = (l, a) ->
            exists j : nat,
              (1 <= j <= S k)%nat /\
              String.length l = (String.length res + j)%nat /\
              a = {| prob := Some (potencia_desde p lit_0_5 j);
                     nivel := Some (lv + Z.of_nat j);
                     suma := None |}).
  { intros c Hc H. injection H as <- <-. exists 1%nat. split; [lia |]. split.
    - rewrite length_append, Hc. reflexivity.
    - reflexivity. }
  intros [H | H]; [now apply (Hhere "C") |].
  apply in_app_iff in H. simpl in H. destruct H as [H | [H | H]].
  - now apply (Hstep "C").
  - now apply (Hhere "S").
  - now apply (Hstep "S").
Qed.

(** The first branch reaches the last level. *)
Lemma nodos_bajo_fondo (k : nat) :
  forall (res : string) (p : num) (lv : Z),
    (1 <= k)%nat ->
    exists l a, In (l, a) (nodos_bajo k res p lv) /\
                nivel a = Some (lv + Z.of_nat k).
Proof.
  induction k as [|k IH]; intros res p lv Hk; [lia |].
  destruct k as [|k].
  - exists (res ++ "C"), (nodo_moneda p lv). split; [now left | reflexivity].
  - destruct (IH (res ++ "C") (mul p lit_0_5) (lv + 1)) as (l & a & Hin & Hlv);
      [lia |].
    exists l, a. split.
    + cbn [nodos_bajo]. apply in_app_iff. left. now right.
    + rewrite Hlv. f_equal. lia.
Qed.

Lemma NoDup_nodos_bajo (k : nat) :
  forall (res : string) (p : num) (lv : Z),
    NoDup (map fst (nodos_bajo k res p lv)).
Proof.
  induction k as [|k IH]; intros res p lv; [constructor |].
  cbn [nodos_bajo]. rewrite map_app. apply NoDup_app.
  - simpl. constructor; [| apply IH].
    intros H. apply nodos_bajo_bajo, bajo_neq in H. now apply H.
  - simpl. constructor; [| apply IH].
    intros H. apply nodos_bajo_bajo, bajo_neq in H. now apply H.
  - simpl. intros l [<- | H1] [H2 | H2].
    + apply (ramas_disjuntas res "" ""). now rewrite !append_nil_r.
    + apply nodos_bajo_bajo in H2. destruct H2 as (w & _ & H2).
      apply (ramas_disjuntas res "" w). now rewrite append_nil_r.
    + apply nodos_bajo_bajo in H1. destruct H1 as (w & _ & H1). subst l.
      apply (ramas_disjuntas res w ""). now rewrite append_nil_r.
    + apply nodos_bajo_bajo in H1. destruct H1 as (w & _ & H1).
      apply nodos_bajo_bajo in H2. destruct H2 as (w' & _ & H2).
      rewrite H1 in H2. now apply (ramas_disjuntas res w w').
Qed.

Lemma NoDup_arbol_monedas (k : nat) : NoDup (labels (arbol_monedas k)).
Proof.
  unfold labels. simpl. constructor; [| apply NoDup_nodos_bajo].
  intros H. apply nodos_bajo_bajo, bajo_neq in H. now apply H.
Qed.

(** In a dictionary an entry is found under its key. *)
Lemma node_In (G : DiGraph) (l : string) (a : attrs) :
  NoDup (labels G) -> In (l, a) (nodes G) -> node G l = Ok a.
Proof.
  unfold node, labels. induction (nodes G) as [|[l' a'] ns IH]; intros Hnd Hin;
    [contradiction |].
  simpl in *. inversion Hnd as [|? ? Hnotin Hnd']; subst.
  destruct Hin as [Heq | Hin].
  - injection Heq as -> ->. now rewrite String.eqb_refl.
  - destruct (String.eqb_spec l' l) as [-> | _]; [| now apply IH].
    exfalso. apply Hnotin. now apply (in_map fst) in Hin.
Qed.

Lemma In_labels (G : DiGraph) (l : string) :
  In l (labels G) -> exists a, In (l, a) (nodes G).
Proof.
  unfold labels. intros H. apply in_map_iff in H.
  destruct H as ([l' a] & <- & H). now exists a.
Qed.

(** Edges entering a label are counted by the occurrences of the label among
    the targets. *)
Lemma entradas_NoDup (E : list edge) (v : string) :
  NoDup (map tgt E) ->
  entradas E v = if in_dec string_dec v (map tgt E) then 1%nat else O.
Proof.
  unfold entradas. induction E as [|e E IH]; intros Hnd; [reflexivity |].
  simpl in Hnd. inversion Hnd as [|? ? Hnotin Hnd']; subst.
  cbn [filter map]. specialize (IH Hnd').
  destruct (String.eqb_spec (tgt e) v) as [Heq | Hne].
  - simpl List.length. rewrite IH.
    destruct (in_dec string_dec v (map tgt E)) as [Hin | _];
      [now rewrite <- Heq in Hin |].
    destruct (in_dec string_dec v (tgt e :: map tgt E)) as [_ | Hout];
      [reflexivity |].
    exfalso. apply Hout. now left.
  - rewrite IH.
    destruct (in_dec string_dec v (map tgt E)) as [Hin | Hout];
      destruct (in_dec string_dec v (tgt e :: map tgt E)) as [Hin' | Hout'];
      try reflexivity.
    + exfalso. apply Hout'. now right.
    + exfalso. destruct Hin' as [Heq | Hin']; [now apply Hne | now apply Hout].
Qed.

Lemma in_degree_arbol_monedas (k : nat) (v : string) :
  In v (labels (arbol_monedas k)) ->
  in_degree (arbol_monedas k) v = if String.eqb v "Inicio" then 0 else 1.
Proof.
  intros Hv. rewrite in_degree_entradas, entradas_NoDup; simpl edges;
    rewrite (aristas_bajo_tgt k "Inicio" lit_1_0 0);
    [| apply NoDup_nodos_bajo].
  unfold labels in Hv. simpl in Hv.
  destruct (in_dec string_dec v _) as [Hin | Hout];
    destruct (String.eqb_spec v "Inicio") as [-> | Hne]; try reflexivity.
  - apply nodos_bajo_bajo, bajo_neq in Hin. now exfalso.
  - exfalso. destruct Hv as [Hv | Hv]; [now apply Hne | now apply Hout].
Qed.

End Attributes.

(** ** Longest paths *)

Section Height.
Context {A : Arith}.

Lemma list_max_In (l : list nat) (x : nat) : In x l -> (x <= list_max l)%nat.
Proof.
  intros H. assert (Hall : Forall (fun k => (k <= list_max l)%nat) l)
    by now apply list_max_le.
  rewrite Forall_forall in Hall. now apply Hall.
Qed.

(** When every edge adds one character to the label and no label is longer
    than [M], a walk from [v] has at most [M - length v] edges. *)
Lemma longest_from_le (G : DiGraph) (M : nat) :
  (forall e, In e (edges G) ->
             String.length (tgt e) = S (String.length (src e)) /\
             (String.length (tgt e) <= M)%nat) ->
  forall (b : nat) (v : string),
    (longest_from G b v <= M - String.length v)%nat.
Proof.
  intros HE. induction b as [|b IH]; intros v; [simpl; lia |].
  simpl. apply list_max_le, Forall_forall. intros x Hx.
  apply in_map_iff in Hx. destruct Hx as (m & <- & Hm).
  unfold successors in Hm. apply in_map_iff in Hm.
  destruct Hm as (e & <- & He). apply filter_In in He.
  destruct He as [He Hsrc]. apply String.eqb_eq in Hsrc. subst v.
  destruct (HE e He) as [Hlen HM]. specialize (IH (tgt e)). lia.
Qed.

(** The first branch below [res] is a path of [k] edges. *)
Lemma longest_from_ge (G : DiGraph) (k : nat) :
  forall (res : string) (b : nat),
    incl (aristas_bajo k res) (edges G) ->
    (Nat.min b k <= longest_from G b res)%nat.
Proof.
  induction k as [|k IH]; intros res b Hincl; [lia |].
  destruct b as [|b]; [simpl; lia |].
  cbn [longest_from].
  transitivity (S (longest_from G b (res ++ "C"))).
  - assert (Hsub : incl (aristas_bajo k (res ++ "C")) (edges G)).
    { intros e He. apply Hincl. cbn [aristas_bajo]. apply in_app_iff.
      left. now right. }
    specialize (IH (res ++ "C") b Hsub). lia.
  - apply list_max_In.
    apply (in_map (fun m => S (longest_from G b m))).
    unfold successors.
    apply (in_map tgt _ {| src := res; tgt := res ++ "C"; label := "C (0.5)" |}).
    apply filter_In. split.
    + apply Hincl. now left.
    + apply String.eqb_refl.
Qed.

Lemma aristas_arbol_monedas (k : nat) (e : edge) :
  In e (edges (arbol_monedas k)) ->
  String.length (tgt e) = S (String.length (src e)) /\
  (String.length (tgt e) <= 6 + k)%nat.
Proof.
  simpl. intros He. split.
  - apply aristas_bajo_hijo in He.
    destruct He as [-> | ->]; rewrite length_append; simpl; lia.
  - apply (in_map tgt) in He.
    rewrite (aristas_bajo_tgt k "Inicio" lit_1_0 0) in He.
    apply in_map_iff in He. destruct He as ([l a] & <- & He).
    apply nodos_bajo_attrs in He. destruct He as (j & Hj & Hlen & _).
    simpl in *. lia.
Qed.

Lemma length_nodos_bajo (k : nat) (res : string) (p : num) (lv : Z) :
  (k <= List.length (nodos_bajo k res p lv))%nat.
Proof.
  revert res p lv. induction k as [|k IH]; intros res p lv; [simpl; lia |].
  cbn [nodos_bajo]. rewrite length_app. simpl.
  specialize (IH (res ++ "C") (mul p lit_0_5) (lv + 1)). lia.
Qed.

Lemma labels_arbol_monedas_length (k : nat) (v : string) :
  In v (labels (arbol_monedas k)) -> (6 <= String.length v)%nat.
Proof.
  unfold labels. simpl. intros [<- | H]; [simpl; lia |].
  apply nodos_bajo_bajo, bajo_length in H. simpl in H. lia.
Qed.

Lemma longest_from_arbol_monedas (k b : nat) (v : string) :
  In v (labels (arbol_monedas k)) ->
  (longest_from (arbol_monedas k) b v <= k)%nat.
Proof.
  intros Hv. apply labels_arbol_monedas_length in Hv.
  pose proof (longest_from_le (arbol_monedas k) (6 + k)
                (aristas_arbol_monedas k) b v). lia.
Qed.

Lemma is_dag_arbol_monedas (k : nat) :
  is_directed_acyclic_graph (arbol_monedas k) = true.
Proof.
  unfold is_directed_acyclic_graph. apply forallb_forall. intros v Hv.
  apply Nat.ltb_lt.
  pose proof (longest_from_arbol_monedas k
                (List.length (nodes (arbol_monedas k))) v Hv) as Hle.
  simpl List.length in *.
  pose proof (length_nodos_bajo k "Inicio" lit_1_0 0). lia.
Qed.

Lemma dag_longest_path_length_arbol_monedas (k : nat) :
  dag_longest_path_length (arbol_monedas k) = Z.of_nat k.
Proof.
  unfold dag_longest_path_length. f_equal. apply Nat.le_antisymm.
  - apply list_max_le, Forall_forall. intros x Hx.
    apply in_map_iff in Hx. destruct Hx as (v & <- & Hv).
    now apply longest_from_arbol_monedas.
  - transitivity (longest_from (arbol_monedas k)
                    (List.length (nodes (arbol_monedas k))) "Inicio").
    + pose proof (longest_from_ge (arbol_monedas k) k "Inicio"
                    (List.length (nodes (arbol_monedas k)))
                    (incl_refl _)) as Hge.
      simpl List.length in *.
      pose proof (length_nodos_bajo k "Inicio" lit_1_0 0). lia.
    + apply list_max_In. apply in_map. unfold labels. simpl. now left.
Qed.

(** The largest ['nivel'] attribute is the number of levels. *)
Lemma for_each_max (ns : list (string * attrs)) (M : Z) :
  (forall l a, In (l, a) ns -> exists d, nivel a = Some d /\ d <= M) ->
  forall m0, m0 <= M ->
    exists m,
      for_each ns (fun e m =>
        d <- match nivel (snd e) with
             | Some d => Ok d
             | None => Raise KeyError
             end ;; Ok (Z.max m d)) m0 = Ok m /\
      m0 <= m <= M /\
      (forall l a d, In (l, a) ns -> nivel a = Some d -> d <= m).
Proof.
  induction ns as [|[l a] ns IH]; intros Hall m0 Hm0.
  - exists m0. simpl. split; [reflexivity |]. split; [lia |]. intros ? ? ? [].
  - destruct (Hall l a (or_introl eq_refl)) as (d & Hd & HdM).
    destruct (IH (fun l' a' H => Hall l' a' (or_intror H)) (Z.max m0 d))
      as (m & Hrun & Hbound & Hmax); [lia |].
    exists m. simpl. rewrite Hd. simpl. split; [exact Hrun |].
    split; [lia |].
    intros l' a' d' [Heq | Hin] Hd'.
    + injection Heq as <- <-. rewrite Hd in Hd'. injection Hd' as <-. lia.
    + now apply (Hmax l' a').
Qed.

Lemma altura_por_nivel_arbol_monedas (k : nat) :
  altura_por_nivel (arbol_monedas k) = Ok (Z.of_nat k).
Proof.
  unfold altura_por_nivel. simpl.
  destruct (for_each_max (nodos_bajo k "Inicio" lit_1_0 0) (Z.of_nat k))
    with (m0 := 0) as (m & Hrun & Hbound & Hmax); [| lia |].
  - intros l a Hin. apply nodos_bajo_attrs in Hin.
    destruct Hin as (j & Hj & _ & ->). simpl. eexists. split; [reflexivity |].
    lia.
  - rewrite Hrun. f_equal. destruct k as [|k]; [lia |].
    destruct (nodos_bajo_fondo (S k) "Inicio" lit_1_0 0) as (l & a & Hin & Hlv);
      [lia |].
    specialize (Hmax l a _ Hin Hlv). lia.
Qed.

End Height.

(** ** The builder and the analyzer as functions *)

Section Functions.
Context {A : Arith}.

(** With enough room for the recursion, the coin builder returns the
    expected tree. *)
Lemma crear_arbol_monedas_ok (limit : nat) (n : Z) :
  0 <= n -> n < Z.of_nat limit ->
  crear_arbol_monedas limit n = Ok (arbol_monedas (Z.to_nat n)).
Proof.
  intros Hn Hl. unfold crear_arbol_monedas.
  change (add_node "Inicio" raiz empty)
    with {| nodes := [("Inicio", raiz)]; edges := [] |}.
  rewrite (generar_nodos_spec (Z.to_nat n)); try reflexivity.
  - lia.
  - lia.
  - now left.
  - intros l Hl' [H | []]. apply bajo_neq in Hl'. now apply Hl'.
  - intros e [].
Qed.

(** The recursion stops only at [nivel == num_lanzamientos]: when that level
    is behind, or farther than the nested calls still allowed, the limit of
    the interpreter is hit. *)
Lemma generar_nodos_raise (limit : nat) :
  forall (n lv : Z) (res : string) (p : num) (G : DiGraph),
    n < lv \/ Z.of_nat limit <= n - lv ->
    generar_nodos limit n lv res p G = Raise RecursionError.
Proof.
  induction limit as [|limit IH]; intros n lv res p G H; [reflexivity |].
  simpl. replace (lv =? n) with false by (symmetry; apply Z.eqb_neq; lia).
  rewrite IH by lia. reflexivity.
Qed.

Lemma crear_arbol_monedas_raise (limit : nat) (n : Z) :
  n < 0 \/ Z.of_nat limit <= n ->
  crear_arbol_monedas limit n = Raise RecursionError.
Proof.
  intros H. unfold crear_arbol_monedas. apply generar_nodos_raise. lia.
Qed.

Lemma node_total (G : DiGraph) (n : string) :
  In n (labels G) -> exists a, node G n = Ok a.
Proof.
  unfold node, labels. intros H.
  destruct (find (fun e => String.eqb (fst e) n) (nodes G)) as [e |] eqn:E;
    [now eexists |].
  apply in_map_iff in H. destruct H as (e & <- & He).
  apply (find_none _ _ E) in He. now rewrite String.eqb_refl in He.
Qed.

Lemma hojas_de_labels (G : DiGraph) (n : string) :
  In n (hojas_de G) -> In n (labels G).
Proof. unfold hojas_de. intros H. now apply filter_In in H. Qed.

Lemma insertar_In (k x : Z) (l : list Z) :
  In x (insertar k l) -> x = k \/ In x l.
Proof.
  induction l as [|y l IH]; simpl.
  - intros [<- | []]. now left.
  - destruct (k <=? y); simpl.
    + intros [<- | H]; [now left | now right].
    + intros [<- | H]; [right; now left |].
      apply IH in H. destruct H as [-> | H]; [now left | right; now right].
Qed.

Lemma sorted_In (x : Z) (l : list Z) : In x (sorted l) -> In x l.
Proof.
  induction l as [|y l IH]; simpl; [tauto |].
  intros H. apply insertar_In in H. destruct H as [-> | H];
    [now left | right; now apply IH].
Qed.

Lemma item_total (sumas : list (Z * Z)) (k : Z) :
  In k (map fst sumas) -> exists c, item sumas k = Ok c.
Proof.
  unfold item. intros H.
  destruct (find (fun e => fst e =? k) sumas) as [e |] eqn:E; [now eexists |].
  apply in_map_iff in H. destruct H as (e & <- & He).
  apply (find_none _ _ E) in He. now rewrite Z.eqb_refl in He.
Qed.

(** A loop whose body cannot raise on the elements it visits ends. *)
Lemma for_each_total {X S : Type} (xs : list X) (body : X -> S -> result S) :
  (forall x s, In x xs -> exists s', body x s = Ok s') ->
  forall s, exists s', for_each xs body s = Ok s'.
Proof.
  induction xs as [|x xs IH]; intros Hbody s; [now eexists |].
  simpl. destruct (Hbody x s (or_introl eq_refl)) as (s1 & ->). simpl.
  apply IH. intros x' s' Hx'. apply Hbody. now right.
Qed.

(** [analizar_grafo] raises on no graph, whatever the report asked for. *)
Lemma analizar_grafo_total (G : DiGraph) (tipo : string) :
  exists dist,
    analizar_grafo G tipo =
    Ok {| nodos_totales := number_of_nodes G;
          aristas_totales := number_of_edges G;
          nodos_hoja := Z.of_nat (List.length (hojas_de G));
          altura := if is_directed_acyclic_graph G
                    then Some (dag_longest_path_length G) else None;
          distribucion := dist |}.
Proof.
  unfold analizar_grafo. destruct (String.eqb tipo "dado").
  - assert (Hsub : forall n, In n (hojas_de G) -> In n (labels G))
      by apply hojas_de_labels.
    destruct (hojas_de G) as [|h hs].
    + (* no leaf: both loops are empty *)
      simpl. now eexists.
    + destruct (for_each_total (h :: hs)
                  (fun n sumas =>
                     a <- node G n ;;
                     Ok (contar match suma a with Some s => s | None => 0 end
                           sumas))) with (s := @nil (Z * Z)) as (sumas & ->).
      { intros n s Hn. apply Hsub, node_total in Hn.
        destruct Hn as (a & ->). now eexists. }
      cbn [bind].
      destruct (for_each_total (sorted (map fst sumas))
                  (fun s lineas =>
                     c <- item sumas s ;;
                     p <- truediv c (Z.of_nat (List.length (h :: hs))) ;;
                     Ok (lineas ++ [{| l_suma := s; l_formas := c;
                                       l_prob := p |}])%list))
        with (s := @nil linea) as (lineas & ->).
      { intros s ls Hs. apply sorted_In, item_total in Hs.
        destruct Hs as (c & ->). cbn [bind]. unfold truediv.
        replace (Z.of_nat (List.length (h :: hs)) =? 0) with false
          by (symmetry; apply Z.eqb_neq; simpl List.length; lia).
        cbn [bind]. now eexists. }
      cbn [bind]. now eexists.
  - cbn [bind]. now eexists.
Qed.

End Functions.

(** ** Leaves of the coin tree *)

Section Leaves.
Context {A : Arith}.

Lemma node_hoja_arbol_monedas (k : nat) (h : string) :
  In h (hojas_de (arbol_monedas k)) ->
  node (arbol_monedas k) h =
  Ok {| prob := Some (potencia lit_0_5 k);
        nivel := Some (Z.of_nat k);
        suma := None |}.
Proof.
  intros Hh. pose proof (hojas_de_labels _ _ Hh) as Hl.
  rewrite hojas_de_arbol_monedas in Hh. apply hojas_bajo_length in Hh.
  simpl in Hh. apply In_labels in Hl. destruct Hl as (a & Ha).
  rewrite (node_In _ h a (NoDup_arbol_monedas k) Ha). f_equal.
  simpl in Ha. destruct Ha as [Heq | Ha].
  - injection Heq as <- <-. simpl in Hh. assert (k = O) by lia. now subst k.
  - apply nodos_bajo_attrs in Ha. destruct Ha as (j & _ & Hlen & ->).
    simpl in Hlen. assert (j = k) by lia. now subst j.
Qed.

End Leaves.

(** ** Sums of doubles *)

(** The sum of the leaf probabilities is a sum of [2^n] terms [2^-n].  The
    running sums are followed in the specification of the doubles, where a
    sum of [k] terms is the double [unidades n k]. *)












Section Sums.
Context {A : Arith}.



End Sums.










(** ** Failures *)

(** C3, as the code has it.  The coin builder checks no argument.  With a
    negative flip count the recursion never meets its stopping level:
    however many nested calls the interpreter allows, the call ends in
    [RecursionError], never in an invalid-argument error, and returns no
    graph.  With a flip count [n >= 0] the recursion nests [n + 1] calls of
    [generar_nodos]: the builder returns the graph whenever the interpreter
    allows enough nested calls, it ends in the same [RecursionError] when
    the interpreter allows no more than [n] of them, and it ends in no other
    way. *)
Theorem coin_builder_failure (A : Arith) (n : Z) :
  (n < 0 ->
   forall limit : nat, crear_arbol_monedas limit n = Raise RecursionError) /\
  (0 <= n ->
   (exists limit0 : nat,
      forall limit : nat, (limit0 <= limit)%nat ->
        crear_arbol_monedas limit n = Ok (arbol_monedas (Z.to_nat n))) /\
   (forall limit : nat, (limit <= Z.to_nat n)%nat ->
      crear_arbol_monedas limit n = Raise RecursionError) /\
   (forall limit : nat,
      crear_arbol_monedas limit n = Ok (arbol_monedas (Z.to_nat n)) \/
      crear_arbol_monedas limit n = Raise RecursionError)).
Proof.
  split.
  - intros Hn limit. apply crear_arbol_monedas_raise. now left.
  - intros Hn. split; [| split].
    + exists (S (Z.to_nat n)). intros limit Hl.
      apply crear_arbol_monedas_ok; lia.
    + intros limit Hl. apply crear_arbol_monedas_raise. right. lia.
    + intros limit. destruct (Z.ltb_spec n (Z.of_nat limit)) as [Hl | Hl].
      * left. now apply crear_arbol_monedas_ok.
      * right. apply crear_arbol_monedas_raise. now right.
Qed.

Lemma coin_builder_failure_witness :
  -1 < 0 /\ 0 <= 2 /\
  @crear_arbol_monedas binary64 1000 (-1) = Raise RecursionError /\
  (exists limit0 : nat,
     forall limit : nat, (limit0 <= limit)%nat ->
       @crear_arbol_monedas binary64 limit 2 = Ok (arbol_monedas 2)) /\
  @crear_arbol_monedas binary64 2 2 = Raise RecursionError.
Proof.
  assert (Hneg : -1 < 0) by lia.
  assert (Hpos : 0 <= 2) by lia.
  split; [exact Hneg |]. split; [exact Hpos |]. split; [| split].
  - exact (proj1 (coin_builder_failure binary64 (-1)) Hneg 1000%nat).
  - exact (proj1 (proj2 (coin_builder_failure binary64 2) Hpos)).
  - exact (proj1 (proj2 (proj2 (coin_builder_failure binary64 2) Hpos))
             2%nat (Nat.le_refl 2)).
Defined.

(** C3 fails as stated, in both halves.  The call [crear_arbol_monedas(-1)]
    ends in [RecursionError], which is no invalid-argument condition; so it
    does with room for 1000 nested calls, and with any other room.  And a
    non-negative flip count fails too when the recursion is deeper than the
    interpreter allows: the call [crear_arbol_monedas(1000)] needs 1001
    nested calls, and ends in [RecursionError] when 1000 or fewer are
    allowed, as under the interpreter's default limit of 1000 frames. *)
Lemma coin_builder_negative_counterexample :
  (@crear_arbol_monedas binary64 1000 (-1) = Raise RecursionError /\
   @crear_arbol_monedas binary64 1000 (-1) <> Raise ValueError) /\
  (forall limit : nat, (limit <= 1000)%nat ->
     @crear_arbol_monedas binary64 limit 1000 = Raise RecursionError).
Proof.
  assert (H : @crear_arbol_monedas binary64 1000 (-1) = Raise RecursionError)
    by (apply crear_arbol_monedas_raise; left; lia).
  split.
  - split; [exact H |]. rewrite H. discriminate.
  - intros limit Hl. apply crear_arbol_monedas_raise. right. lia.
Qed.

Section Default.
Context {A : Arith}.

(** Counting [m] leaves that all fall under the same sum. *)
Lemma contar_misma_suma (G : DiGraph) (s : Z) (hs : list string) :
  (forall h, In h hs ->
     exists a, node G h = Ok a /\
               match suma a with Some x => x | None => 0 end = s) ->
  forall c : Z,
    for_each hs (fun n sumas =>
      a <- node G n ;;
      Ok (contar match suma a with Some x => x | None => 0 end sumas))
      [(s, c)] = Ok [(s, c + Z.of_nat (List.length hs))].
Proof.
  induction hs as [|h hs IH]; intros Hall c.
  - simpl. do 3 f_equal. lia.
  - destruct (Hall h (or_introl eq_refl)) as (a & Ha & Hs).
    cbn [for_each]. rewrite Ha. cbn [bind]. rewrite Hs. cbn [contar].
    rewrite Z.eqb_refl. rewrite IH by (intros h' H'; apply Hall; now right).
    do 3 f_equal. cbn [List.length]. lia.
Qed.

Lemma analizar_grafo_una_suma (G : DiGraph) (s : Z) :
  hojas_de G <> [] ->
  (forall h, In h (hojas_de G) ->
     exists a, node G h = Ok a /\
               match suma a with Some x => x | None => 0 end = s) ->
  exists r,
    analizar_grafo G "dado" = Ok r /\
    distribucion r =
    Some [{| l_suma := s;
             l_formas := Z.of_nat (List.length (hojas_de G));
             l_prob := div (of_int (Z.of_nat (List.length (hojas_de G))))
                           (of_int (Z.of_nat (List.length (hojas_de G)))) |}].
Proof.
  intros Hne Hall. unfold analizar_grafo. cbn [String.eqb Ascii.eqb Bool.eqb].
  destruct (hojas_de G) as [|h hs]; [contradiction |].
  destruct (Hall h (or_introl eq_refl)) as (a & Ha & Hs).
  cbn [for_each]. rewrite Ha. cbn [bind]. rewrite Hs. cbn [contar].
  rewrite (contar_misma_suma G s hs) by (intros h' H'; apply Hall; now right).
  cbn [bind map fst sorted fold_right insertar for_each].
  unfold item. cbn [find fst]. rewrite Z.eqb_refl. cbn [bind snd].
  unfold truediv.
  replace (Z.of_nat (List.length (h :: hs)) =? 0) with false
    by (symmetry; apply Z.eqb_neq; simpl List.length; lia).
  cbn [bind app]. eexists. split; [reflexivity |]. cbn [distribucion].
  replace (0 + 1 + Z.of_nat (List.length hs))
    with (Z.of_nat (List.length (h :: hs)))
    by (cbn [List.length]; lia).
  reflexivity.
Qed.

End Default.

(** C4, as the code has it.  A leaf without the sum attribute is read with
    the default [.get('suma', 0)]: when a dice report is asked for a graph
    whose leaves all lack the attribute, the analyzer does not fail, and the
    table has the single line of the sum 0, with every leaf counted in it.
    And on a well-formed graph the analyzer never fails: it fails on no graph
    of the data model, where a node has a label and, each optional, a float
    probability, an integer level and an integer sum. *)
Theorem analizar_grafo_never_fails (A : Arith) (G : DiGraph) (tipo : string) :
  (exists r, analizar_grafo G tipo = Ok r) /\
  (hojas_de G <> [] ->
   (forall h, In h (hojas_de G) ->
      exists a, node G h = Ok a /\ suma a = None) ->
   exists r,
     analizar_grafo G "dado" = Ok r /\
     distribucion r =
     Some [{| l_suma := 0;
              l_formas := Z.of_nat (List.length (hojas_de G));
              l_prob := div (of_int (Z.of_nat (List.length (hojas_de G))))
                            (of_int (Z.of_nat (List.length (hojas_de G)))) |}]).
Proof.
  split.
  - destruct (analizar_grafo_total G tipo) as (dist & ->). now eexists.
  - intros Hne Hall. apply analizar_grafo_una_suma; [exact Hne |].
    intros h Hh. destruct (Hall h Hh) as (a & Ha & Hs).
    exists a. split; [exact Ha | now rewrite Hs].
Qed.

Lemma analizar_grafo_never_fails_witness :
  hojas_de (@arbol_monedas binary64 2) <> [] /\
  (forall h, In h (hojas_de (@arbol_monedas binary64 2)) ->
     exists a, node (@arbol_monedas binary64 2) h = Ok a /\ suma a = None) /\
  exists r,
    analizar_grafo (@arbol_monedas binary64 2) "dado" = Ok r /\
    distribucion r = Some [@Build_linea binary64 0 4 1%float].
Proof.
  assert (Hne : hojas_de (@arbol_monedas binary64 2) <> [])
    by (vm_compute; discriminate).
  assert (Hall : forall h, In h (hojas_de (@arbol_monedas binary64 2)) ->
            exists a, node (@arbol_monedas binary64 2) h = Ok a /\
                      suma a = None).
  { intros h Hh. rewrite (node_hoja_arbol_monedas 2 h Hh).
    eexists. split; reflexivity. }
  split; [exact Hne |]. split; [exact Hall |].
  exact (proj2 (analizar_grafo_never_fails binary64
                  (@arbol_monedas binary64 2) "dado") Hne Hall).
Defined.

(** C4 fails as stated: the two-coin tree has four leaves, none with a sum
    attribute, and the dice report on it is returned, with the four leaves
    under the sum 0. *)
Lemma analizar_sin_suma_counterexample :
  exists G : @DiGraph binary64,
    crear_arbol_monedas 1000 2 = Ok G /\
    forallb (fun h => match node G h with
                      | Ok a => match suma a with
                                | None => true
                                | Some _ => false
                                end
                      | Raise _ => false
                      end) (hojas_de G) = true /\
    analizar_grafo G "dado" =
    Ok {| nodos_totales := 7;
          aristas_totales := 6;
          nodos_hoja := 4;
          altura := Some 2;
          distribucion := Some [@Build_linea binary64 0 4 1%float] |}.
Proof.
  exists (arbol_monedas 2). split; [| split].
  - apply crear_arbol_monedas_ok; [lia | simpl; lia].
  - vm_compute. reflexivity.
  - vm_compute. reflexivity.
Qed.

(** ** The two-coin scenario *)

(** C5, as the code has it.  The branches are named ["C"] (cara) and ["S"]
    (sello).  For two flips the sample space printed by menu option 1, the
    leaf labels without ["Inicio"], is CC, CS, SC, SS; every leaf has
    probability [0.25]; the analyzer reports 7 nodes, 6 edges, 4 leaves and
    height 2. *)
Theorem two_coin_scenario (limit : nat) :
  (2 < limit)%nat ->
  exists G : @DiGraph binary64,
    crear_arbol_monedas limit 2 = Ok G /\
    espacio_muestral G = ["CC"; "CS"; "SC"; "SS"] /\
    (forall h, In h (hojas_de G) ->
               exists a, node G h = Ok a /\ prob a = Some 0.25%float) /\
    analizar_grafo G "moneda" =
    Ok {| nodos_totales := 7;
          aristas_totales := 6;
          nodos_hoja := 4;
          altura := Some 2;
          distribucion := None |}.
Proof.
  intros Hl. exists (arbol_monedas 2). split; [| split; [| split]].
  - apply crear_arbol_monedas_ok; lia.
  - vm_compute. reflexivity.
  - intros h Hh. rewrite (node_hoja_arbol_monedas 2 h Hh).
    eexists. split; reflexivity.
  - vm_compute. reflexivity.
Qed.

Lemma two_coin_scenario_witness :
  (2 < 3)%nat /\
  exists G : @DiGraph binary64,
    crear_arbol_monedas 3 2 = Ok G /\
    espacio_muestral G = ["CC"; "CS"; "SC"; "SS"].
Proof.
  split; [lia |].
  destruct (two_coin_scenario 3) as (G & HG & Hesp & _); [lia |].
  exists G. split; [exact HG | exact Hesp].
Defined.

(** C5 fails as stated: no leaf of the two-coin tree is labelled ["HH"]. *)
Lemma two_coin_labels_counterexample :
  exists G : @DiGraph binary64,
    crear_arbol_monedas 1000 2 = Ok G /\
    map (replace "Inicio" "") (hojas_de G) <> ["HH"; "HT"; "TH"; "TT"] /\
    ~ In "HH" (map (replace "Inicio" "") (hojas_de G)).
Proof.
  exists (arbol_monedas 2). split; [| split].
  - apply crear_arbol_monedas_ok; [lia | simpl; lia].
  - vm_compute. discriminate.
  - vm_compute. intros [H | [H | [H | [H | []]]]]; discriminate.
Qed.

(** ** Trees *)

Section Trees.
Context {A : Arith}.

Lemma filter_none {X : Type} (f : X -> bool) (l : list X) :
  (forall x, In x l -> f x = false) -> filter f l = [].
Proof.
  induction l as [|x l IH]; intros H; [reflexivity |].
  simpl. rewrite (H x) by now left. apply IH. intros y Hy. apply H. now right.
Qed.

Lemma es_arbol_arbol_monedas (k : nat) : es_arbol (arbol_monedas k).
Proof.
  assert (Hdeg : forall v, In v (labels (arbol_monedas k)) ->
                           v <> "Inicio" -> in_degree (arbol_monedas k) v = 1).
  { intros v Hv Hne. rewrite in_degree_arbol_monedas by exact Hv.
    apply String.eqb_neq in Hne. now rewrite Hne. }
  split; [reflexivity |]. split; [| split].
  - assert (Hraiz : In "Inicio" (labels (arbol_monedas k))) by now left.
    pose proof (in_degree_arbol_monedas k "Inicio" Hraiz) as H0.
    change (labels (arbol_monedas k))
      with ("Inicio" :: map fst (nodos_bajo k "Inicio" lit_1_0 0)) in *.
    cbn [filter]. rewrite H0. cbn [String.eqb Ascii.eqb Bool.eqb Z.eqb].
    f_equal. apply filter_none. intros v Hv.
    rewrite Hdeg; [reflexivity | now right |].
    apply nodos_bajo_bajo, bajo_neq in Hv. exact Hv.
  - exact Hdeg.
  - apply is_dag_arbol_monedas.
Qed.

Lemma es_arbol_crear_arbol_dado : es_arbol crear_arbol_dado.
Proof.
  split; [| split; [| split]].
  - vm_compute. reflexivity.
  - vm_compute. reflexivity.
  - assert (H : forallb (fun v => String.eqb v "Inicio"
                                  || (in_degree crear_arbol_dado v =? 1))
                  (labels crear_arbol_dado) = true)
      by (vm_compute; reflexivity).
    pose proof (proj1 (forallb_forall _ _) H) as Hall. clear H.
    intros v Hv Hne. specialize (Hall v Hv). cbv beta in Hall.
    apply orb_true_iff in Hall. destruct Hall as [Heq | Hdeg].
    + apply String.eqb_eq in Heq. contradiction.
    + apply Z.eqb_eq in Hdeg. exact Hdeg.
  - vm_compute. reflexivity.
Qed.

End Trees.

(** C6.  Every graph a builder returns is a tree: the node ["Inicio"], with
    probability [1.0] and level 0, is the one node without an incoming edge;
    every other node has exactly one incoming edge; there is no cycle.  This
    holds for the coin builder at every flip count [n >= 0] the recursion
    limit allows, and for the dice builder. *)
Theorem builders_make_trees (A : Arith) :
  (forall (limit : nat) (n : Z),
      0 <= n -> n < Z.of_nat limit ->
      exists G, crear_arbol_monedas limit n = Ok G /\ es_arbol G) /\
  es_arbol crear_arbol_dado.
Proof.
  split.
  - intros limit n Hn Hl. exists (arbol_monedas (Z.to_nat n)).
    split; [now apply crear_arbol_monedas_ok | apply es_arbol_arbol_monedas].
  - apply es_arbol_crear_arbol_dado.
Qed.

Lemma builders_make_trees_witness :
  0 <= 3 /\ 3 < Z.of_nat 1000 /\
  exists G : @DiGraph binary64,
    crear_arbol_monedas 1000 3 = Ok G /\ es_arbol G.
Proof.
  split; [lia |]. split; [lia |].
  apply (proj1 (builders_make_trees binary64) 1000%nat 3); lia.
Defined.

(** ** Probabilities along the paths *)

Section Paths.
Context {A : Arith}.

(** Every edge below [res] joins two entries of the node dictionary, one
    level and one factor [0.5] apart. *)
Lemma aristas_bajo_attrs (k : nat) :
  forall (res : string) (p : num) (lv : Z) (ares : attrs) (e : edge),
    nivel ares = Some lv -> prob ares = Some p ->
    In e (aristas_bajo k res) ->
    exists au av d pu,
      In (src e, au) ((res, ares) :: nodos_bajo k res p lv) /\
      In (tgt e, av) ((res, ares) :: nodos_bajo k res p lv) /\
      nivel au = Some d /\ nivel av = Some (d + 1) /\
      prob au = Some pu /\ prob av = Some (mul pu lit_0_5).
Proof.
  induction k as [|k IH]; intros res p lv ares e Hlv Hp He; [contradiction |].
  cbn [aristas_bajo nodos_bajo] in *.
  assert (Hhere : forall c lab,
            In (res ++ c, nodo_moneda p lv)
               ((res, ares) :: nodos_bajo (S k) res p lv) ->
            e = {| src := res; tgt := res ++ c; label := lab |} ->
            exists au av d pu,
              In (src e, au) ((res, ares) :: nodos_bajo (S k) res p lv) /\
              In (tgt e, av) ((res, ares) :: nodos_bajo (S k) res p lv) /\
              nivel au = Some d /\ nivel av = Some (d + 1) /\
              prob au = Some pu /\ prob av = Some (mul pu lit_0_5)).
  { intros c lab Hin ->. exists ares, (nodo_moneda p lv), lv, p. simpl.
    repeat apply conj; auto. }
  assert (Hdeep : forall c,
            incl ((res ++ c, nodo_moneda p lv)
                    :: nodos_bajo k (res ++ c) (mul p lit_0_5) (lv + 1))
                 ((res, ares) :: nodos_bajo (S k) res p lv) ->
            In e (aristas_bajo k (res ++ c)) ->
            exists au av d pu,
              In (src e, au) ((res, ares) :: nodos_bajo (S k) res p lv) /\
              In (tgt e, av) ((res, ares) :: nodos_bajo (S k) res p lv) /\
              nivel au = Some d /\ nivel av = Some (d + 1) /\
              prob au = Some pu /\ prob av = Some (mul pu lit_0_5)).
  { intros c Hincl Hin.
    destruct (IH (res ++ c) (mul p lit_0_5) (lv + 1) (nodo_moneda p lv) e
                eq_refl eq_refl Hin)
      as (au & av & d & pu & Hu & Hv & Hrest).
    exists au, av, d, pu. split; [now apply Hincl |].
    split; [now apply Hincl | exact Hrest]. }
  assert (HinclC : incl ((res ++ "C", nodo_moneda p lv)
                           :: nodos_bajo k (res ++ "C") (mul p lit_0_5) (lv + 1))
                        ((res, ares) :: nodos_bajo (S k) res p lv)).
  { intros x Hx. right. cbn [nodos_bajo]. apply in_app_iff. now left. }
  assert (HinclS : incl ((res ++ "S", nodo_moneda p lv)
                           :: nodos_bajo k (res ++ "S") (mul p lit_0_5) (lv + 1))
                        ((res, ares) :: nodos_bajo (S k) res p lv)).
  { intros x Hx. right. cbn [nodos_bajo]. apply in_app_iff. now right. }
  apply in_app_iff in He. destruct He as [[He | He] | [He | He]].
  - apply (Hhere "C" "C (0.5)"); [apply HinclC; now left | now symmetry].
  - now apply (Hdeep "C").
  - apply (Hhere "S" "S (0.5)"); [apply HinclS; now left | now symmetry].
  - now apply (Hdeep "S").
Qed.

Lemma prob_por_camino_arbol_monedas (k : nat) :
  prob_por_camino lit_0_5 (arbol_monedas k).
Proof.
  split.
  - intros e He.
    destruct (aristas_bajo_attrs k "Inicio" lit_1_0 0 raiz e eq_refl eq_refl He)
      as (au & av & d & pu & Hu & Hv & Hrest).
    exists au, av, d, pu.
    split; [apply node_In; [apply NoDup_arbol_monedas | exact Hu] |].
    split; [apply node_In; [apply NoDup_arbol_monedas | exact Hv] |].
    exact Hrest.
  - intros l a [Heq | Hin].
    + injection Heq as <- <-. exists 0. split; [reflexivity |].
      split; [lia | reflexivity].
    + apply nodos_bajo_attrs in Hin. destruct Hin as (j & _ & _ & ->).
      exists (Z.of_nat j). split; [reflexivity |]. split; [lia |].
      cbn [prob]. now rewrite Nat2Z.id.
Qed.

End Paths.

(** The dice tree, evaluated in double precision. *)
Ltac evaluar_dado :=
  let v := eval vm_compute in (@crear_arbol_dado binary64) in
  let E := fresh "E" in
  assert (E : @crear_arbol_dado binary64 = v) by (vm_compute; reflexivity);
  rewrite E in *; clear E.

Lemma prob_por_camino_crear_arbol_dado :
  prob_por_camino (@div binary64 (of_int 1) (of_int 6))
                  (@crear_arbol_dado binary64).
Proof.
  split.
  - intros e He. evaluar_dado. cbn [edges In] in He.
    repeat (destruct He as [<- | He];
            [do 4 eexists; repeat apply conj; reflexivity |]).
    contradiction.
  - intros l a Hin. evaluar_dado. cbn [nodes In] in Hin.
    repeat (destruct Hin as [Heq | Hin];
            [injection Heq as <- <-; eexists;
             split; [reflexivity | split; [lia | reflexivity]] |]).
    contradiction.
Qed.

(** C7.  In every graph a builder returns, the stored probability of a node
    is the product of the branch probabilities on the path from the root:
    each edge adds one level and one factor, so a coin-tree node at level [d]
    stores [0.5^d], in whatever arithmetic the products are taken, and a
    dice-tree node at level [d] stores the double [(1/6)^d]. *)
Theorem prob_is_path_product :
  (forall (A : Arith) (limit : nat) (n : Z),
      0 <= n -> n < Z.of_nat limit ->
      exists G, crear_arbol_monedas limit n = Ok G /\
                prob_por_camino lit_0_5 G) /\
  prob_por_camino (@div binary64 (of_int 1) (of_int 6))
                  (@crear_arbol_dado binary64).
Proof.
  split.
  - intros A limit n Hn Hl. exists (arbol_monedas (Z.to_nat n)).
    split; [now apply crear_arbol_monedas_ok |].
    apply prob_por_camino_arbol_monedas.
  - apply prob_por_camino_crear_arbol_dado.
Qed.

Lemma prob_is_path_product_witness :
  0 <= 3 /\ 3 < Z.of_nat 1000 /\
  exists G : @DiGraph binary64,
    crear_arbol_monedas 1000 3 = Ok G /\ prob_por_camino lit_0_5 G.
Proof.
  split; [lia |]. split; [lia |].
  apply (proj1 prob_is_path_product binary64 1000%nat 3); lia.
Defined.

(** ** Heights *)

Section Reports.
Context {A : Arith}.

(** The height the analyzer prints for the expected coin tree. *)
Lemma altura_arbol_monedas (k : nat) (tipo : string) :
  exists r, analizar_grafo (arbol_monedas k) tipo = Ok r /\
            altura r = Some (Z.of_nat k).
Proof.
  destruct (analizar_grafo_total (arbol_monedas k) tipo) as (dist & ->).
  eexists. split; [reflexivity |]. cbn [altura].
  now rewrite is_dag_arbol_monedas, dag_longest_path_length_arbol_monedas.
Qed.

Lemma altura_crear_arbol_dado :
  exists r, analizar_grafo crear_arbol_dado "dado" = Ok r /\
            altura r = Some 2.
Proof.
  destruct (analizar_grafo_total crear_arbol_dado "dado") as (dist & ->).
  eexists. split; [reflexivity |]. cbn [altura].
  replace (is_directed_acyclic_graph crear_arbol_dado) with true
    by (vm_compute; reflexivity).
  vm_compute. reflexivity.
Qed.

End Reports.

(** C8.  The height the analyzer computes, the number of edges of the longest
    path, is [n] for the coin tree of [n >= 0] flips, whatever report is
    asked, and 2 for the dice tree. *)
Theorem tree_height (A : Arith) :
  (forall (limit : nat) (n : Z) (tipo : string),
      0 <= n -> n < Z.of_nat limit ->
      exists G r, crear_arbol_monedas limit n = Ok G /\
                  analizar_grafo G tipo = Ok r /\
                  altura r = Some n) /\
  (exists r, analizar_grafo crear_arbol_dado "dado" = Ok r /\
             altura r = Some 2).
Proof.
  split.
  - intros limit n tipo Hn Hl.
    destruct (altura_arbol_monedas (Z.to_nat n) tipo) as (r & Hr & Hh).
    exists (arbol_monedas (Z.to_nat n)), r.
    split; [now apply crear_arbol_monedas_ok |]. split; [exact Hr |].
    rewrite Hh. f_equal. lia.
  - apply altura_crear_arbol_dado.
Qed.

Lemma tree_height_witness :
  0 <= 3 /\ 3 < Z.of_nat 1000 /\
  exists (G : @DiGraph binary64) r,
    crear_arbol_monedas 1000 3 = Ok G /\
    analizar_grafo G "moneda" = Ok r /\
    altura r = Some 3.
Proof.
  split; [lia |]. split; [lia |].
  apply (proj1 (tree_height binary64) 1000%nat 3 "moneda"); lia.
Defined.

(** C9.  On every graph a builder returns, the two ways of computing the
    height agree: the longest-path length the analyzer asks the graph library
    for equals the largest level attribute stored on the nodes. *)
Theorem height_is_max_level (A : Arith) :
  (forall (limit : nat) (n : Z) (tipo : string),
      0 <= n -> n < Z.of_nat limit ->
      exists G r h, crear_arbol_monedas limit n = Ok G /\
                    analizar_grafo G tipo = Ok r /\
                    altura r = Some h /\
                    altura_por_nivel G = Ok h) /\
  (exists r h, analizar_grafo crear_arbol_dado "dado" = Ok r /\
               altura r = Some h /\
               altura_por_nivel crear_arbol_dado = Ok h).
Proof.
  split.
  - intros limit n tipo Hn Hl.
    destruct (altura_arbol_monedas (Z.to_nat n) tipo) as (r & Hr & Hh).
    exists (arbol_monedas (Z.to_nat n)), r, (Z.of_nat (Z.to_nat n)).
    split; [now apply crear_arbol_monedas_ok |]. split; [exact Hr |].
    split; [exact Hh | apply altura_por_nivel_arbol_monedas].
  - destruct (@altura_crear_arbol_dado A) as (r & Hr & Hh).
    exists r, 2. split; [exact Hr |]. split; [exact Hh |].
    vm_compute. reflexivity.
Qed.

Lemma height_is_max_level_witness :
  0 <= 3 /\ 3 < Z.of_nat 1000 /\
  exists (G : @DiGraph binary64) r h,
    crear_arbol_monedas 1000 3 = Ok G /\
    analizar_grafo G "moneda" = Ok r /\
    altura r = Some h /\
    altura_por_nivel G = Ok h.
Proof.
  split; [lia |]. split; [lia |].
  apply (proj1 (height_is_max_level binary64) 1000%nat 3 "moneda"); lia.
Defined.

(** ** The sums of two dice *)

(** Added from the left in double precision, the 36 leaf probabilities miss
    [1.0] by one unit in the last place: the tolerance is needed. *)
Lemma suma_binary64_dado_inexacta :
  suma_de_probabilidades (@crear_arbol_dado binary64)
    (hojas_de crear_arbol_dado) = Ok 0x1.0000000000001p+0%float.
Proof. vm_compute. reflexivity. Qed.

(** C2.  The dice builder returns a graph with exactly 36 leaves.  Their
    probabilities, added in double precision, are within tolerance of [1.0],
    and add up to 1 in exact arithmetic.  In the table of the analyzer the
    sum 7 has count 6, and the sums 2 and 12 have count 1 each. *)
Theorem dice_tree_leaves :
  (forall A : Arith,
      Z.of_nat (List.length (hojas_de crear_arbol_dado)) = 36 /\
      exists r ls,
        analizar_grafo crear_arbol_dado "dado" = Ok r /\
        nodos_hoja r = 36 /\
        distribucion r = Some ls /\
        formas_de ls 7 = [6] /\
        formas_de ls 2 = [1] /\
        formas_de ls 12 = [1]) /\
  (exists s : float,
      suma_de_probabilidades (@crear_arbol_dado binary64)
        (hojas_de crear_arbol_dado) = Ok s /\
      cerca s 1 = true) /\
  (exists s : Q,
      suma_de_probabilidades (@crear_arbol_dado exact)
        (hojas_de crear_arbol_dado) = Ok s /\
      (s == 1)%Q).
Proof.
  split; [| split].
  - intros A. split; [vm_compute; reflexivity |].
    do 2 eexists. split; [vm_compute; reflexivity |].
    repeat apply conj; vm_compute; reflexivity.
  - eexists. split; [vm_compute; reflexivity |]. vm_compute. reflexivity.
  - eexists. split; [vm_compute; reflexivity |]. vm_compute. reflexivity.
Qed.

(** C10.  In the dice tree the number of leaves whose sum attribute is [s]
    is [6 - |7 - s|] for every [s] from 2 to 12; every leaf carries a sum
    between 2 and 12; and the table of the analyzer has, for each such [s] in
    ascending order, that count and the count divided by 36. *)
Theorem dice_sum_distribution (A : Arith) :
  (forall s, 2 <= s <= 12 ->
             Z.of_nat (List.length (hojas_con_suma crear_arbol_dado s)) =
             6 - Z.abs (7 - s)) /\
  (forall h, In h (hojas_de crear_arbol_dado) ->
             exists a s, node crear_arbol_dado h = Ok a /\
                         suma a = Some s /\ 2 <= s <= 12) /\
  (exists r,
      analizar_grafo crear_arbol_dado "dado" = Ok r /\
      distribucion r =
      Some (map (fun s =>
                   {| l_suma := s;
                      l_formas := 6 - Z.abs (7 - s);
                      l_prob := div (of_int (6 - Z.abs (7 - s)))
                                    (of_int 36) |})
                (range 2 13))).
Proof.
  split; [| split].
  - intros s Hs.
    assert (Hcases : s = 2 \/ s = 3 \/ s = 4 \/ s = 5 \/ s = 6 \/ s = 7 \/
                     s = 8 \/ s = 9 \/ s = 10 \/ s = 11 \/ s = 12) by lia.
    repeat (destruct Hcases as [-> | Hcases]; [vm_compute; reflexivity |]).
    subst s. vm_compute. reflexivity.
  - assert (H : forallb
                  (fun h => match node crear_arbol_dado h with
                            | Ok a => match suma a with
                                      | Some s => (2 <=? s) && (s <=? 12)
                                      | None => false
                                      end
                            | Raise _ => false
                            end) (hojas_de crear_arbol_dado) = true)
      by (vm_compute; reflexivity).
    pose proof (proj1 (forallb_forall _ _) H) as Hall. clear H.
    intros h Hh. specialize (Hall h Hh). cbv beta in Hall.
    destruct (node crear_arbol_dado h) as [a | ?]; [| discriminate Hall].
    destruct (suma a) as [s |] eqn:Hs; [| discriminate Hall].
    apply andb_true_iff in Hall. destruct Hall as [H2 H12].
    apply Z.leb_le in H2. apply Z.leb_le in H12.
    exists a, s. split; [reflexivity |]. split; [exact Hs | lia].
  - exists {| nodos_totales := 43;
              aristas_totales := 42;
              nodos_hoja := 36;
              altura := Some 2;
              distribucion :=
                Some (map (fun s =>
                             {| l_suma := s;
                                l_formas := 6 - Z.abs (7 - s);
                                l_prob := div (of_int (6 - Z.abs (7 - s)))
                                              (of_int 36) |})
                          (range 2 13)) |}.
    split; [vm_compute; reflexivity | reflexivity].
Qed.

Lemma dice_sum_distribution_witness :
  2 <= 7 <= 12 /\
  Z.of_nat (List.length (hojas_con_suma (@crear_arbol_dado binary64) 7)) = 6 /\
  In "3,4" (hojas_de (@crear_arbol_dado binary64)) /\
  exists a s, node (@crear_arbol_dado binary64) "3,4" = Ok a /\
              suma a = Some s /\ 2 <= s <= 12.
Proof.
  assert (H7 : 2 <= 7 <= 12) by lia.
  assert (Hin : In "3,4" (hojas_de (@crear_arbol_dado binary64)))
    by (vm_compute; tauto).
  split; [exact H7 |].
  split; [exact (proj1 (dice_sum_distribution binary64) 7 H7) |].
  split; [exact Hin |].
  exact (proj1 (proj2 (dice_sum_distribution binary64)) "3,4" Hin).
Defined.

(** ** Sizes and degrees of the coin tree *)

Section Sizes.
Context {A : Arith}.

Lemma length_nodos_bajo_eq (k : nat) (res : string) (p : num) (lv : Z) :
  List.length (nodos_bajo k res p lv) = (2 ^ S k - 2)%nat.
Proof.
  revert res p lv. induction k as [|k IH]; intros res p lv; [reflexivity |].
  cbn [nodos_bajo]. rewrite length_app. cbn [List.length]. rewrite !IH.
  pose proof (Nat.pow_nonzero 2 k). rewrite !Nat.pow_succ_r'. lia.
Qed.

Lemma length_aristas_bajo_eq (k : nat) (res : string) :
  List.length (aristas_bajo k res) = (2 ^ S k - 2)%nat.
Proof.
  rewrite <- (length_map tgt), (aristas_bajo_tgt k res lit_1_0 0), length_map.
  apply length_nodos_bajo_eq.
Qed.

(** Any report other than the dice report has no table. *)
Lemma analizar_grafo_sin_tabla (G : DiGraph) (tipo : string) :
  String.eqb tipo "dado" = false ->
  analizar_grafo G tipo =
  Ok {| nodos_totales := number_of_nodes G;
        aristas_totales := number_of_edges G;
        nodos_hoja := Z.of_nat (List.length (hojas_de G));
        altura := if is_directed_acyclic_graph G
                  then Some (dag_longest_path_length G) else None;
        distribucion := None |}.
Proof. intros H. unfold analizar_grafo. rewrite H. reflexivity. Qed.

Lemma salidas_nil (E : list edge) (v : string) :
  salidas E v = O -> filter (fun e => String.eqb (src e) v) E = [].
Proof. unfold salidas. apply length_zero_iff_nil. Qed.

(** Below [res], a node at the last level has no outgoing edge, and every
    other node [l] has two: to [l ++ "C"] and to [l ++ "S"], in this order,
    each labelled with its choice. *)
Lemma aristas_de_nodos_bajo (k : nat) :
  forall (res : string) (p : num) (lv : Z) (ares : attrs) (l : string)
         (a : attrs),
    nivel ares = Some lv ->
    In (l, a) ((res, ares) :: nodos_bajo k res p lv) ->
    exists d, nivel a = Some d /\ lv <= d <= lv + Z.of_nat k /\
              filter (fun e => String.eqb (src e) l) (aristas_bajo k res) =
              if d =? lv + Z.of_nat k then []
              else [{| src := l; tgt := l ++ "C"; label := "C (0.5)" |};
                    {| src := l; tgt := l ++ "S"; label := "S (0.5)" |}].
Proof.
  induction k as [|k IH]; intros res p lv ares l a Hlv Hin.
  - destruct Hin as [Heq | []]. injection Heq as <- <-.
    exists lv. split; [exact Hlv |]. split; [lia |].
    replace (lv =? lv + Z.of_nat 0) with true
      by (symmetry; apply Z.eqb_eq; lia).
    reflexivity.
  - change (aristas_bajo (S k) res) with
      (([{| src := res; tgt := res ++ "C"; label := "C (0.5)" |}]
          ++ aristas_bajo k (res ++ "C"))
         ++ [{| src := res; tgt := res ++ "S"; label := "S (0.5)" |}]
         ++ aristas_bajo k (res ++ "S"))%list.
    rewrite !filter_app.
    assert (HC : bajo res (res ++ "C")) by (apply bajo_hijo; discriminate).
    assert (HS : bajo res (res ++ "S")) by (apply bajo_hijo; discriminate).
    assert (Hone : forall c lab l',
              filter (fun e => String.eqb (src e) l')
                [{| src := res; tgt := res ++ c; label := lab |}] =
              if String.eqb res l'
              then [{| src := res; tgt := res ++ c; label := lab |}] else []).
    { intros c lab l'. cbn [filter src].
      destruct (String.eqb res l'); reflexivity. }
    rewrite !Hone.
    destruct Hin as [Heq | Hin].
    + injection Heq as <- <-. rewrite String.eqb_refl.
      rewrite (salidas_nil (aristas_bajo k (res ++ "C")) res); cycle 1.
      { apply salidas_none. intros e He E. apply aristas_bajo_src in He.
        destruct He as (w & He).
        rewrite E in He. apply (bajo_neq res res); [| reflexivity].
        exists ("C" ++ w). split; [discriminate |].
        rewrite <- append_assoc. exact He. }
      rewrite (salidas_nil (aristas_bajo k (res ++ "S")) res); cycle 1.
      { apply salidas_none. intros e He E. apply aristas_bajo_src in He.
        destruct He as (w & He).
        rewrite E in He. apply (bajo_neq res res); [| reflexivity].
        exists ("S" ++ w). split; [discriminate |].
        rewrite <- append_assoc. exact He. }
      exists lv. split; [exact Hlv |]. split; [lia |].
      replace (lv =? lv + Z.of_nat (S k)) with false
        by (symmetry; apply Z.eqb_neq; lia).
      reflexivity.
    + cbn [nodos_bajo] in Hin. apply in_app_iff in Hin.
      destruct Hin as [Hin | Hin].
      * assert (Hl : l = res ++ "C" \/ bajo (res ++ "C") l).
        { destruct Hin as [Heq | Hin]; [left; congruence | right].
          apply (in_map fst) in Hin. now apply nodos_bajo_bajo in Hin. }
        assert (Hne : String.eqb res l = false).
        { apply String.eqb_neq. intros ->.
          destruct Hl as [Hl | Hl].
          - apply bajo_neq in HC. congruence.
          - apply bajo_trans, bajo_neq in Hl. now apply Hl. }
        rewrite Hne.
        rewrite (salidas_nil _ _
                   (salidas_otra_rama k res l "C" "S" (ramas_disjuntas res) Hl)).
        destruct (IH (res ++ "C") (mul p lit_0_5) (lv + 1) (nodo_moneda p lv)
                    l a eq_refl Hin) as (d & Hd & Hrange & Hsal).
        exists d. split; [exact Hd |]. split; [lia |].
        cbn [app]. rewrite app_nil_r, Hsal.
        replace (lv + 1 + Z.of_nat k) with (lv + Z.of_nat (S k)) by lia.
        reflexivity.
      * assert (Hl : l = res ++ "S" \/ bajo (res ++ "S") l).
        { destruct Hin as [Heq | Hin]; [left; congruence | right].
          apply (in_map fst) in Hin. now apply nodos_bajo_bajo in Hin. }
        assert (Hne : String.eqb res l = false).
        { apply String.eqb_neq. intros ->.
          destruct Hl as [Hl | Hl].
          - apply bajo_neq in HS. congruence.
          - apply bajo_trans, bajo_neq in Hl. now apply Hl. }
        rewrite Hne.
        rewrite (salidas_nil _ _
                   (salidas_otra_rama k res l "S" "C" (ramas_disjuntas' res) Hl)).
        destruct (IH (res ++ "S") (mul p lit_0_5) (lv + 1) (nodo_moneda p lv)
                    l a eq_refl Hin) as (d & Hd & Hrange & Hsal).
        exists d. split; [exact Hd |]. split; [lia |].
        cbn [app]. rewrite Hsal.
        replace (lv + 1 + Z.of_nat k) with (lv + Z.of_nat (S k)) by lia.
        reflexivity.
Qed.

Lemma salidas_nodos_bajo (k : nat) :
  forall (res : string) (p : num) (lv : Z) (ares : attrs) (l : string)
         (a : attrs),
    nivel ares = Some lv ->
    In (l, a) ((res, ares) :: nodos_bajo k res p lv) ->
    exists d, nivel a = Some d /\ lv <= d <= lv + Z.of_nat k /\
              salidas (aristas_bajo k res) l =
              if d =? lv + Z.of_nat k then O else 2%nat.
Proof.
  intros res p lv ares l a Hlv Hin.
  destruct (aristas_de_nodos_bajo k res p lv ares l a Hlv Hin)
    as (d & Hd & Hrange & Hsal).
  exists d. split; [exact Hd |]. split; [exact Hrange |].
  unfold salidas. rewrite Hsal. destruct (d =? lv + Z.of_nat k); reflexivity.
Qed.

End Sizes.

(** X1.  For [n >= 0] flips within the recursion limit, the report of the
    analyzer on the coin tree has [2^(n+1) - 1] nodes, one edge fewer,
    [2^n] leaves, height [n], and no table of sums. *)
Theorem coin_tree_report (A : Arith) (limit : nat) (n : Z) :
  0 <= n -> n < Z.of_nat limit ->
  exists G,
    crear_arbol_monedas limit n = Ok G /\
    analizar_grafo G "moneda" =
    Ok {| nodos_totales := 2 ^ (n + 1) - 1;
          aristas_totales := 2 ^ (n + 1) - 2;
          nodos_hoja := 2 ^ n;
          altura := Some n;
          distribucion := None |}.
Proof.
  intros Hn Hl. exists (arbol_monedas (Z.to_nat n)).
  split; [now apply crear_arbol_monedas_ok |].
  rewrite analizar_grafo_sin_tabla by reflexivity.
  rewrite is_dag_arbol_monedas, dag_longest_path_length_arbol_monedas.
  rewrite hojas_de_arbol_monedas, length_hojas_bajo.
  unfold number_of_nodes, number_of_edges. cbn [nodes edges arbol_monedas].
  cbn [List.length]. rewrite length_nodos_bajo_eq, length_aristas_bajo_eq.
  assert (Hpow : Z.of_nat (2 ^ S (Z.to_nat n)) = 2 ^ (n + 1)).
  { rewrite Nat2Z.inj_pow. f_equal. lia. }
  assert (Hpow' : Z.of_nat (2 ^ Z.to_nat n) = 2 ^ n).
  { rewrite Nat2Z.inj_pow. f_equal. lia. }
  assert (Hge : (2 <= 2 ^ S (Z.to_nat n))%nat).
  { rewrite Nat.pow_succ_r'. pose proof (Nat.pow_nonzero 2 (Z.to_nat n)). lia. }
  f_equal. f_equal; try lia. f_equal. lia.
Qed.

Lemma coin_tree_report_witness :
  0 <= 3 /\ 3 < Z.of_nat 1000 /\
  exists G : @DiGraph binary64,
    crear_arbol_monedas 1000 3 = Ok G /\
    analizar_grafo G "moneda" =
    Ok {| nodos_totales := 15;
          aristas_totales := 14;
          nodos_hoja := 8;
          altura := Some 3;
          distribucion := None |}.
Proof.
  split; [lia |]. split; [lia |].
  apply (coin_tree_report binary64 1000%nat 3); lia.
Defined.

(** X2.  In the coin tree of [n] flips every node has a level between 0 and
    [n].  A node at level [n] has no outgoing edge; every other node [l] has
    exactly two, to [l ++ "C"] labelled ["C (0.5)"] and then to [l ++ "S"]
    labelled ["S (0.5)"]: the leaves are the nodes of the last level. *)
Theorem coin_tree_degrees (A : Arith) (limit : nat) (n : Z) :
  0 <= n -> n < Z.of_nat limit ->
  exists G,
    crear_arbol_monedas limit n = Ok G /\
    forall l a, In (l, a) (nodes G) ->
      exists d, nivel a = Some d /\ 0 <= d <= n /\
                out_degree G l = (if d =? n then 0 else 2) /\
                filter (fun e => String.eqb (src e) l) (edges G) =
                if d =? n then []
                else [{| src := l; tgt := l ++ "C"; label := "C (0.5)" |};
                      {| src := l; tgt := l ++ "S"; label := "S (0.5)" |}].
Proof.
  intros Hn Hl. exists (arbol_monedas (Z.to_nat n)).
  split; [now apply crear_arbol_monedas_ok |].
  intros l a Hin.
  destruct (aristas_de_nodos_bajo (Z.to_nat n) "Inicio" lit_1_0 0 raiz l a
              eq_refl Hin) as (d & Hd & Hrange & Hsal).
  exists d. split; [exact Hd |]. split; [lia |].
  replace (0 + Z.of_nat (Z.to_nat n)) with n in Hsal by lia.
  split.
  - rewrite out_degree_salidas. unfold salidas. cbn [edges arbol_monedas].
    rewrite Hsal. destruct (d =? n); reflexivity.
  - exact Hsal.
Qed.

Lemma coin_tree_degrees_witness :
  0 <= 2 /\ 2 < Z.of_nat 1000 /\
  exists G : @DiGraph binary64,
    crear_arbol_monedas 1000 2 = Ok G /\
    forall l a, In (l, a) (nodes G) ->
      exists d, nivel a = Some d /\ 0 <= d <= 2 /\
                out_degree G l = if d =? 2 then 0 else 2.
Proof.
  split; [lia |]. split; [lia |].
  destruct (coin_tree_degrees binary64 1000%nat 2) as (G & HG & Hall);
    [lia | lia |].
  exists G. split; [exact HG |]. intros l a Hin.
  destruct (Hall l a Hin) as (d & Hd & Hr & Hout & _).
  exists d. split; [exact Hd |]. split; [exact Hr | exact Hout].
Defined.

(** ** The sample space and the number of heads *)

Lemma prefix_empty (w : string) : String.prefix "" w = true.
Proof. destruct w; reflexivity. Qed.

Lemma replace_de_monedas (w : string) :
  de_monedas w -> replace_from "Inicio" "" O w = w.
Proof.
  unfold de_monedas. induction w as [|c w IH]; intros H; [reflexivity |].
  cbn [list_ascii_of_string] in H. inversion H as [|? ? Hc Hw]; subst.
  destruct Hc as [-> | ->]; cbn; now rewrite IH.
Qed.

(** Taking ["Inicio"] out of a label leaves the choices made. *)
Lemma replace_Inicio (w : string) :
  de_monedas w -> replace "Inicio" "" ("Inicio" ++ w) = w.
Proof.
  intros H. cbn. rewrite prefix_empty. now apply replace_de_monedas.
Qed.

Lemma hojas_bajo_palabras (k : nat) (res : string) :
  hojas_bajo k res = map (String.append res) (palabras k).
Proof.
  revert res. induction k as [|k IH]; intros res.
  - cbn. now rewrite append_nil_r.
  - cbn [hojas_bajo palabras]. rewrite map_app, !map_map, !IH.
    f_equal; apply map_ext; intros w; apply append_assoc.
Qed.

Lemma palabras_spec (k : nat) (w : string) :
  In w (palabras k) <-> String.length w = k /\ de_monedas w.
Proof.
  unfold de_monedas. revert w. induction k as [|k IH]; intros w.
  - cbn. split.
    + intros [<- | []]. split; [reflexivity | constructor].
    + intros [Hlen _]. left. destruct w; [reflexivity | discriminate].
  - cbn [palabras]. rewrite in_app_iff, !in_map_iff. split.
    + intros [(v & <- & Hv) | (v & <- & Hv)]; apply IH in Hv;
        destruct Hv as [Hlen Hall]; cbn; (split; [now rewrite Hlen |]);
        constructor; auto.
    + intros [Hlen Hall]. destruct w as [|c w]; [discriminate |].
      cbn in Hlen, Hall. injection Hlen as Hlen.
      inversion Hall as [|? ? Hc Hw]; subst.
      destruct Hc as [-> | ->]; [left | right]; exists w;
        (split; [reflexivity | apply IH; now split]).
Qed.

Lemma NoDup_palabras (k : nat) : NoDup (palabras k).
Proof.
  induction k as [|k IH]; [repeat constructor; intros [] |].
  cbn [palabras]. apply NoDup_app.
  - apply Finite.Injective_map_NoDup; [| exact IH].
    intros a b H. now injection H.
  - apply Finite.Injective_map_NoDup; [| exact IH].
    intros a b H. now injection H.
  - intros w H1 H2. apply in_map_iff in H1. apply in_map_iff in H2.
    destruct H1 as (a & <- & _). destruct H2 as (b & H2 & _). discriminate.
Qed.

Lemma de_monedas_palabras (k : nat) :
  Forall de_monedas (palabras k).
Proof. apply Forall_forall. intros w Hw. now apply palabras_spec in Hw. Qed.

Section Space.
Context {A : Arith}.

Lemma espacio_muestral_arbol_monedas (k : nat) :
  espacio_muestral (arbol_monedas k) = palabras k.
Proof.
  unfold espacio_muestral.
  rewrite hojas_de_arbol_monedas, hojas_bajo_palabras, map_map.
  pose proof (de_monedas_palabras k) as Hall.
  induction (palabras k) as [|w ws IH]; [reflexivity |].
  inversion Hall as [|? ? Hw Hws]; subst. cbn [map].
  rewrite replace_Inicio by exact Hw. f_equal. now apply IH.
Qed.

End Space.

(** X3.  For [n >= 0] flips the sample space that menu option 1 prints, the
    leaf labels without ["Inicio"], lists every sequence of [n] choices C or
    S exactly once, heads first: [2^n] outcomes. *)
Theorem sample_space_all_sequences (A : Arith) (limit : nat) (n : Z) :
  0 <= n -> n < Z.of_nat limit ->
  exists G,
    crear_arbol_monedas limit n = Ok G /\
    espacio_muestral G = palabras (Z.to_nat n) /\
    NoDup (espacio_muestral G) /\
    Z.of_nat (List.length (espacio_muestral G)) = 2 ^ n /\
    forall w, In w (espacio_muestral G) <->
              Z.of_nat (String.length w) = n /\ de_monedas w.
Proof.
  intros Hn Hl. exists (arbol_monedas (Z.to_nat n)).
  split; [now apply crear_arbol_monedas_ok |].
  rewrite espacio_muestral_arbol_monedas.
  split; [reflexivity |]. split; [apply NoDup_palabras |]. split.
  - rewrite <- (espacio_muestral_arbol_monedas (A := A)).
    unfold espacio_muestral.
    rewrite length_map, hojas_de_arbol_monedas, length_hojas_bajo,
      Nat2Z.inj_pow.
    f_equal. lia.
  - intros w. rewrite palabras_spec. split; intros [Hlen Hw]; (split; [lia | exact Hw]).
Qed.

Lemma sample_space_all_sequences_witness :
  0 <= 3 /\ 3 < Z.of_nat 1000 /\
  exists G : @DiGraph binary64,
    crear_arbol_monedas 1000 3 = Ok G /\
    espacio_muestral G =
    ["CCC"; "CCS"; "CSC"; "CSS"; "SCC"; "SCS"; "SSC"; "SSS"].
Proof.
  split; [lia |]. split; [lia |].
  destruct (sample_space_all_sequences binary64 1000%nat 3)
    as (G & HG & Hesp & _); [lia | lia |].
  exists G. split; [exact HG | exact Hesp].
Defined.

(** The heads in a label. *)
Lemma count_C (s : string) : count "C" s = Z.of_nat (count_from "C" O s).
Proof. reflexivity. Qed.

Lemma count_from_C_app (a b : string) :
  count_from "C" O (a ++ b) =
  (count_from "C" O a + count_from "C" O b)%nat.
Proof.
  induction a as [|c a IH]; [reflexivity |].
  cbn [String.append count_from String.prefix String.length Nat.pred].
  destruct (ascii_dec "C" c); rewrite ?prefix_empty, IH; reflexivity.
Qed.

Lemma binomial_lt (n k : nat) : (n < k)%nat -> binomial n k = O.
Proof.
  revert k. induction n as [|n IH]; intros k Hk.
  - destruct k; [lia | reflexivity].
  - destruct k as [|k]; [lia |]. cbn. rewrite !IH by lia. reflexivity.
Qed.

(** Among the leaves [k] levels below [res], those with [t] heads in all. *)
Lemma caras_hojas_bajo (k : nat) :
  forall (res : string) (t : nat),
    List.length (filter (fun h => Nat.eqb (count_from "C" O h) t)
                        (hojas_bajo k res)) =
    if (t <? count_from "C" O res)%nat then O
    else binomial k (t - count_from "C" O res).
Proof.
  induction k as [|k IH]; intros res t.
  - cbn [hojas_bajo filter].
    destruct (Nat.ltb_spec t (count_from "C" O res)) as [Hlt | Hge].
    + replace (Nat.eqb _ t) with false
        by (symmetry; apply Nat.eqb_neq; lia). reflexivity.
    + destruct (Nat.eqb_spec (count_from "C" O res) t) as [Heq | Hne].
      * rewrite <- Heq, Nat.sub_diag. reflexivity.
      * destruct (t - count_from "C" O res)%nat eqn:E; [lia | reflexivity].
  - cbn [hojas_bajo]. rewrite filter_app, length_app, !IH.
    rewrite !count_from_C_app.
    change (count_from "C" O "C") with 1%nat.
    change (count_from "C" O "S") with O.
    rewrite Nat.add_0_r.
    destruct (Nat.ltb_spec t (count_from "C" O res)) as [Hlt | Hge].
    + replace (t <? count_from "C" O res + 1)%nat with true
        by (symmetry; apply Nat.ltb_lt; lia). reflexivity.
    + destruct (Nat.ltb_spec t (count_from "C" O res + 1)) as [Hlt | Hge'].
      * replace (t - count_from "C" O res)%nat with O by lia.
        destruct k; reflexivity.
      * replace (t - count_from "C" O res)%nat
          with (S (t - (count_from "C" O res + 1))) by lia.
        reflexivity.
Qed.

Section Heads.
Context {A : Arith}.

Lemma caras_arbol_monedas (k : nat) (c : Z) :
  0 <= c ->
  List.length (filter (fun h => count "C" h =? c)
                      (hojas_de (arbol_monedas k))) =
  binomial k (Z.to_nat c).
Proof.
  intros Hc. rewrite hojas_de_arbol_monedas.
  rewrite (filter_ext _ (fun h => Nat.eqb (count_from "C" O h) (Z.to_nat c))).
  - rewrite caras_hojas_bajo. cbn. now rewrite Nat.sub_0_r.
  - intros h. rewrite count_C.
    destruct (Nat.eqb_spec (count_from "C" O h) (Z.to_nat c)) as [Heq | Hne].
    + apply Z.eqb_eq. lia.
    + apply Z.eqb_neq. lia.
Qed.

Lemma distribucion_caras_arbol_monedas (k : nat) :
  distribucion_caras (arbol_monedas k) =
  Ok (map (fun c => (c, Z.of_nat (binomial k (Z.to_nat c)),
                     div (of_int (Z.of_nat (binomial k (Z.to_nat c))))
                         (of_int (Z.of_nat (2 ^ k)))))
          (range 0 4)).
Proof.
  unfold distribucion_caras. change (range 0 4) with [0; 1; 2; 3].
  cbn [for_each map].
  rewrite !caras_arbol_monedas by lia.
  rewrite hojas_de_arbol_monedas, length_hojas_bajo.
  unfold truediv.
  replace (Z.of_nat (2 ^ k) =? 0) with false; [reflexivity |].
  symmetry. apply Z.eqb_neq. pose proof (Nat.pow_nonzero 2 k). lia.
Qed.

End Heads.

(** X4.  Among the leaves of the coin tree of [n] flips, those whose label
    has exactly [k] letters C are [binomial n k] many; so the table of menu
    option 2 pairs each [k] in [range(4)] with that number and with its share
    of the [2^n] leaves. *)
Theorem heads_distribution (A : Arith) (limit : nat) (n : Z) :
  0 <= n -> n < Z.of_nat limit ->
  exists G,
    crear_arbol_monedas limit n = Ok G /\
    (forall k, 0 <= k ->
       List.length (filter (fun h => count "C" h =? k) (hojas_de G)) =
       binomial (Z.to_nat n) (Z.to_nat k)) /\
    distribucion_caras G =
    Ok (map (fun k =>
               (k, Z.of_nat (binomial (Z.to_nat n) (Z.to_nat k)),
                div (of_int (Z.of_nat (binomial (Z.to_nat n) (Z.to_nat k))))
                    (of_int (Z.of_nat (2 ^ Z.to_nat n)))))
            (range 0 4)).
Proof.
  intros Hn Hl. exists (arbol_monedas (Z.to_nat n)).
  split; [now apply crear_arbol_monedas_ok |]. split.
  - intros k Hk. now apply caras_arbol_monedas.
  - apply distribucion_caras_arbol_monedas.
Qed.

Lemma heads_distribution_witness :
  0 <= 3 /\ 3 < Z.of_nat 1000 /\
  exists G : @DiGraph binary64,
    crear_arbol_monedas 1000 3 = Ok G /\
    distribucion_caras G =
    Ok [(0, 1, 0.125%float); (1, 3, 0.375%float);
        (2, 3, 0.375%float); (3, 1, 0.125%float)].
Proof.
  split; [lia |]. split; [lia |].
  destruct (heads_distribution binary64 1000%nat 3)
    as (G & HG & _ & Hdist); [lia | lia |].
  exists G. split; [exact HG | exact Hdist].
Defined.

(** ** The table of sums on any graph *)

Lemma for_each_fold {X S : Type} (f : X -> S -> S) (body : X -> S -> result S)
  (xs : list X) :
  (forall x s, In x xs -> body x s = Ok (f x s)) ->
  forall s, for_each xs body s = Ok (fold_left (fun s x => f x s) xs s).
Proof.
  induction xs as [|x xs IH]; intros Hbody s; [reflexivity |].
  cbn [for_each fold_left]. rewrite (Hbody x s) by now left. cbn [bind].
  apply IH. intros x' s' Hx'. apply Hbody. now right.
Qed.

Lemma fold_left_snoc {X Y : Type} (f : X -> Y) (xs : list X) (acc : list Y) :
  fold_left (fun acc x => (acc ++ [f x])%list) xs acc = (acc ++ map f xs)%list.
Proof.
  revert acc. induction xs as [|x xs IH]; intros acc; cbn [fold_left map].
  - now rewrite app_nil_r.
  - rewrite IH, <- app_assoc. reflexivity.
Qed.

(** The count kept for the key [k]; 0 when the key is absent. *)
Lemma contar_find (k k' : Z) (sumas : list (Z * Z)) :
  match find (fun e => fst e =? k') (contar k sumas) with
  | Some e => snd e
  | None => 0
  end =
  match find (fun e => fst e =? k') sumas with
  | Some e => snd e
  | None => 0
  end + (if k =? k' then 1 else 0).
Proof.
  induction sumas as [|[x c] sumas IH]; cbn [contar find fst snd].
  - destruct (k =? k'); reflexivity.
  - destruct (Z.eqb_spec x k) as [-> | Hxk]; cbn [find fst snd].
    + destruct (k =? k'); cbn [snd]; lia.
    + destruct (Z.eqb_spec x k') as [-> | Hxk']; cbn [snd].
      * replace (k =? k') with false by (symmetry; apply Z.eqb_neq; congruence).
        lia.
      * exact IH.
Qed.

Lemma contar_keys (k k' : Z) (sumas : list (Z * Z)) :
  In k' (map fst (contar k sumas)) <-> k' = k \/ In k' (map fst sumas).
Proof.
  induction sumas as [|[x c] sumas IH]; cbn [contar map fst In].
  - intuition.
  - destruct (Z.eqb_spec x k) as [-> | Hxk]; cbn [map fst In].
    + intuition.
    + rewrite IH. intuition.
Qed.

Lemma contar_NoDup (k : Z) (sumas : list (Z * Z)) :
  NoDup (map fst sumas) -> NoDup (map fst (contar k sumas)).
Proof.
  induction sumas as [|[x c] sumas IH]; cbn [contar map fst]; intros Hnd.
  - repeat constructor. intros [].
  - inversion Hnd as [|? ? Hnotin Hnd']; subst.
    destruct (Z.eqb_spec x k) as [-> | Hxk]; cbn [map fst].
    + now constructor.
    + constructor; [| now apply IH].
      rewrite contar_keys. intros [-> | Hin]; [now apply Hxk | now apply Hnotin].
Qed.

Lemma item_find (sumas : list (Z * Z)) (k : Z) :
  In k (map fst sumas) ->
  item sumas k = Ok match find (fun e => fst e =? k) sumas with
                    | Some e => snd e
                    | None => 0
                    end.
Proof.
  intros H. destruct (item_total sumas k H) as (c & Hc). unfold item in *.
  destruct (find (fun e => fst e =? k) sumas); [reflexivity | discriminate].
Qed.

(** Insertion keeps a strictly ascending list strictly ascending. *)
Lemma insertar_In_iff (k x : Z) (l : list Z) :
  In x (insertar k l) <-> x = k \/ In x l.
Proof.
  split; [apply insertar_In |].
  induction l as [|y l IH]; cbn [insertar].
  - intros [-> | []]. now left.
  - destruct (k <=? y); cbn [In]; intuition.
Qed.

Lemma insertar_sorted (k : Z) (l : list Z) :
  StronglySorted Z.lt l -> ~ In k l -> StronglySorted Z.lt (insertar k l).
Proof.
  induction l as [|y l IH]; intros Hs Hk; cbn [insertar].
  - repeat constructor.
  - inversion Hs as [|? ? Hs' Hall]; subst.
    destruct (Z.leb_spec k y) as [Hle | Hgt].
    + assert (Hlt : k < y).
      { destruct (Z.eq_dec k y) as [-> | Hne]; [| lia].
        exfalso. apply Hk. now left. }
      constructor; [exact Hs |]. constructor; [exact Hlt |].
      rewrite Forall_forall in *. intros z Hz. specialize (Hall z Hz). lia.
    + constructor.
      * apply IH; [exact Hs' |]. intros H. apply Hk. now right.
      * rewrite Forall_forall in *. intros z Hz.
        apply insertar_In in Hz. destruct Hz as [-> | Hz]; [lia | now apply Hall].
Qed.

Lemma sorted_In_iff (x : Z) (l : list Z) : In x (sorted l) <-> In x l.
Proof.
  induction l as [|y l IH]; cbn [sorted fold_right]; [tauto |].
  change (fold_right insertar [] l) with (sorted l).
  rewrite insertar_In_iff, IH. cbn [In]. intuition.
Qed.

Lemma sorted_sorted (l : list Z) :
  NoDup l -> StronglySorted Z.lt (sorted l).
Proof.
  induction l as [|y l IH]; intros Hnd; cbn [sorted fold_right]; [constructor |].
  change (fold_right insertar [] l) with (sorted l).
  inversion Hnd as [|? ? Hnotin Hnd']; subst.
  apply insertar_sorted; [now apply IH |]. now rewrite sorted_In_iff.
Qed.

Section Table.
Context {A : Arith}.

(** The dictionary [sumas] after the first loop over the leaves [hs]. *)
Lemma sumas_fold (G : DiGraph) (hs : list string) (s0 : list (Z * Z)) :
  NoDup (map fst s0) ->
  let sumas := fold_left (fun s h => contar (suma_o_cero G h) s) hs s0 in
  NoDup (map fst sumas) /\
  (forall k, In k (map fst sumas) <->
             In k (map fst s0) \/ exists h, In h hs /\ suma_o_cero G h = k) /\
  (forall k, match find (fun e => fst e =? k) sumas with
             | Some e => snd e
             | None => 0
             end =
             match find (fun e => fst e =? k) s0 with
             | Some e => snd e
             | None => 0
             end
             + Z.of_nat (List.length
                           (filter (fun h => suma_o_cero G h =? k) hs))).
Proof.
  revert s0. induction hs as [|h hs IH]; intros s0 Hnd; cbn zeta.
  - cbn [fold_left]. split; [exact Hnd |]. split.
    + intros k. split; [now left |]. intros [H | (h & [] & _)]. exact H.
    + intros k. cbn. lia.
  - cbn [fold_left].
    destruct (IH (contar (suma_o_cero G h) s0) (contar_NoDup _ _ Hnd))
      as (Hnd' & Hkeys & Hval).
    split; [exact Hnd' |]. split.
    + intros k. rewrite Hkeys, contar_keys. split.
      * intros [[-> | H] | (h' & Hh' & Hk)].
        -- right. exists h. split; [now left | reflexivity].
        -- now left.
        -- right. exists h'. split; [now right | exact Hk].
      * intros [H | (h' & [<- | Hh'] & Hk)].
        -- left. now right.
        -- left. left. now symmetry.
        -- right. now exists h'.
    + intros k. rewrite Hval, contar_find. cbn [filter].
      destruct (suma_o_cero G h =? k); cbn [List.length]; lia.
Qed.

(** The report on any graph when the table of sums is asked for: one line
    for every sum under which some leaf is counted, the sums strictly
    ascending, each with the number of its leaves and its share. *)
Lemma analizar_grafo_tabla (G : DiGraph) :
  exists ks : list Z,
    StronglySorted Z.lt ks /\
    (forall k, In k ks <-> exists h, In h (hojas_de G) /\ suma_o_cero G h = k) /\
    analizar_grafo G "dado" =
    Ok {| nodos_totales := number_of_nodes G;
          aristas_totales := number_of_edges G;
          nodos_hoja := Z.of_nat (List.length (hojas_de G));
          altura := if is_directed_acyclic_graph G
                    then Some (dag_longest_path_length G) else None;
          distribucion :=
            Some (map (fun k =>
                    let c := Z.of_nat (List.length
                               (filter (fun h => suma_o_cero G h =? k)
                                       (hojas_de G))) in
                    {| l_suma := k;
                       l_formas := c;
                       l_prob := div (of_int c)
                                   (of_int (Z.of_nat
                                      (List.length (hojas_de G)))) |})
                  ks) |}.
Proof.
  destruct (sumas_fold G (hojas_de G) [] (NoDup_nil _))
    as (Hnd & Hkeys & Hval).
  set (sumas := fold_left (fun s h => contar (suma_o_cero G h) s)
                  (hojas_de G) []) in *.
  exists (sorted (map fst sumas)).
  split; [now apply sorted_sorted |]. split.
  { intros k. rewrite sorted_In_iff, Hkeys. cbn [map In]. tauto. }
  unfold analizar_grafo. cbn [String.eqb Ascii.eqb Bool.eqb].
  rewrite (for_each_fold (fun h s => contar (suma_o_cero G h) s)); cycle 1.
  { intros h s Hh. unfold suma_o_cero.
    destruct (node_total G h (hojas_de_labels G h Hh)) as (a & ->).
    reflexivity. }
  fold sumas. cbn [bind].
  rewrite (for_each_fold
             (fun k lineas =>
                (lineas ++
                 [{| l_suma := k;
                     l_formas := Z.of_nat (List.length
                                   (filter (fun h => suma_o_cero G h =? k)
                                           (hojas_de G)));
                     l_prob := div (of_int (Z.of_nat (List.length
                                      (filter (fun h => suma_o_cero G h =? k)
                                              (hojas_de G)))))
                                   (of_int (Z.of_nat
                                      (List.length (hojas_de G)))) |}])%list));
    cycle 1.
  { intros k lineas Hk. apply (proj1 (sorted_In_iff _ _)) in Hk.
    rewrite (item_find sumas k Hk). cbn [bind]. rewrite Hval. cbn [find].
    rewrite Z.add_0_l. unfold truediv.
    replace (Z.of_nat (List.length (hojas_de G)) =? 0) with false;
      [reflexivity |].
    symmetry. apply Z.eqb_neq. apply Hkeys in Hk.
    destruct Hk as [[] | (h & Hh & _)].
    destruct (hojas_de G); [contradiction | cbn [List.length]; lia]. }
  cbn [bind]. rewrite fold_left_snoc. reflexivity.
Qed.

(** Leaves sorted into distinct classes: the classes add up to the list. *)
Lemma clases_cons {X : Type} (key : X -> Z) (x : X) (l : list X) (ks : list Z) :
  NoDup ks ->
  fold_right Z.add 0
    (map (fun k => Z.of_nat (List.length
                     (filter (fun y => key y =? k) (x :: l)))) ks) =
  fold_right Z.add 0
    (map (fun k => Z.of_nat (List.length
                     (filter (fun y => key y =? k) l))) ks)
  + (if in_dec Z.eq_dec (key x) ks then 1 else 0).
Proof.
  induction ks as [|k ks IH]; intros Hnd; [reflexivity |].
  inversion Hnd as [|? ? Hnotin Hnd']; subst.
  cbn [map fold_right]. rewrite (IH Hnd').
  assert (Hhead : Z.of_nat (List.length
                              (filter (fun y => key y =? k) (x :: l))) =
                  Z.of_nat (List.length (filter (fun y => key y =? k) l))
                  + (if key x =? k then 1 else 0)).
  { cbn [filter]. destruct (key x =? k); cbn [List.length]; lia. }
  rewrite Hhead.
  destruct (Z.eqb_spec (key x) k) as [Heq | Hne].
  - destruct (in_dec Z.eq_dec (key x) ks) as [Hin | _];
      [exfalso; apply Hnotin; now rewrite <- Heq |].
    destruct (in_dec Z.eq_dec (key x) (k :: ks)) as [_ | Hout];
      [lia | exfalso; apply Hout; now left].
  - destruct (in_dec Z.eq_dec (key x) ks) as [Hin | Hout];
      destruct (in_dec Z.eq_dec (key x) (k :: ks)) as [Hin' | Hout'];
      try lia.
    + exfalso. apply Hout'. now right.
    + exfalso. destruct Hin' as [E | Hin']; [now apply Hne | now apply Hout].
Qed.

Lemma length_por_clases {X : Type} (key : X -> Z) (ks : list Z) (l : list X) :
  NoDup ks ->
  (forall x, In x l -> In (key x) ks) ->
  fold_right Z.add 0
    (map (fun k => Z.of_nat (List.length (filter (fun x => key x =? k) l))) ks)
  = Z.of_nat (List.length l).
Proof.
  intros Hnd. induction l as [|x l IH]; intros Hin.
  - clear Hnd Hin. induction ks as [|k ks IHk]; [reflexivity |].
    cbn [map fold_right filter List.length] in *. rewrite IHk. reflexivity.
  - rewrite (clases_cons key x l ks Hnd).
    rewrite IH by (intros y Hy; apply Hin; now right).
    destruct (in_dec Z.eq_dec (key x) ks) as [_ | Hout].
    + cbn [List.length]. lia.
    + exfalso. apply Hout, Hin. now left.
Qed.

Lemma StronglySorted_lt_NoDup (l : list Z) : StronglySorted Z.lt l -> NoDup l.
Proof.
  induction 1 as [|x l Hs IH Hall]; constructor; [| exact IH].
  intros Hin. rewrite Forall_forall in Hall. specialize (Hall x Hin). lia.
Qed.

End Table.

(** X5.  On any graph, the table of the dice report has one line for each
    sum under which some leaf is counted (a leaf without the attribute under
    0), the sums strictly ascending; a line carries the number of leaves with
    its sum and that number divided by the number of leaves. *)
Theorem dice_table_lines (A : Arith) (G : DiGraph) :
  exists r ls,
    analizar_grafo G "dado" = Ok r /\
    distribucion r = Some ls /\
    StronglySorted Z.lt (map l_suma ls) /\
    (forall k, In k (map l_suma ls) <->
               exists h, In h (hojas_de G) /\ suma_o_cero G h = k) /\
    Forall (fun l =>
              l_formas l =
              Z.of_nat (List.length
                          (filter (fun h => suma_o_cero G h =? l_suma l)
                                  (hojas_de G))) /\
              l_prob l = div (of_int (l_formas l))
                             (of_int (Z.of_nat (List.length (hojas_de G)))))
           ls.
Proof.
  destruct (analizar_grafo_tabla G) as (ks & Hsort & Hks & Hr).
  eexists. eexists. split; [exact Hr |]. cbn [distribucion].
  split; [reflexivity |]. rewrite map_map. cbn [l_suma]. rewrite map_id.
  split; [exact Hsort |]. split; [exact Hks |].
  apply Forall_forall. intros l Hl. apply in_map_iff in Hl.
  destruct Hl as (k & <- & _). cbn. split; reflexivity.
Qed.

(** X6.  On any graph, every line of the dice table counts at least one
    leaf, and the counts of the lines add up to the number of leaves: each
    leaf is counted once. *)
Theorem dice_table_counts_add_up (A : Arith) (G : DiGraph) :
  exists r ls,
    analizar_grafo G "dado" = Ok r /\
    distribucion r = Some ls /\
    Forall (fun l => 1 <= l_formas l) ls /\
    fold_right Z.add 0 (map l_formas ls) = nodos_hoja r.
Proof.
  destruct (analizar_grafo_tabla G) as (ks & Hsort & Hks & Hr).
  eexists. eexists. split; [exact Hr |]. cbn [distribucion nodos_hoja].
  split; [reflexivity |]. split.
  - apply Forall_forall. intros l Hl. apply in_map_iff in Hl.
    destruct Hl as (k & <- & Hk). cbn [l_formas].
    apply Hks in Hk. destruct Hk as (h & Hh & Hk).
    assert (Hin : In h (filter (fun h => suma_o_cero G h =? k) (hojas_de G))).
    { apply filter_In. split; [exact Hh | now apply Z.eqb_eq]. }
    destruct (filter _ (hojas_de G)); [contradiction | cbn [List.length]; lia].
  - rewrite map_map. cbn [l_formas].
    apply (length_por_clases (suma_o_cero G) ks (hojas_de G)).
    + now apply StronglySorted_lt_NoDup.
    + intros h Hh. apply Hks. now exists h.
Qed.

Section Cycles.
Context {A : Arith}.

(** From a node of a set that every node leaves into the set again, walks
    of any length start. *)
Lemma longest_from_ciclo (G : DiGraph) (C : list string) :
  (forall u, In u C -> exists v, In v C /\ In v (successors G u)) ->
  forall (b : nat) (u : string), In u C -> (b <= longest_from G b u)%nat.
Proof.
  intros Hsucc. induction b as [|b IH]; intros u Hu; [cbn; lia |].
  destruct (Hsucc u Hu) as (v & Hv & Huv). cbn [longest_from].
  transitivity (S (longest_from G b v)).
  - specialize (IH v Hv). lia.
  - apply list_max_In. now apply (in_map (fun m => S (longest_from G b m))).
Qed.

Lemma is_dag_ciclo (G : DiGraph) (C : list string) (u : string) :
  (forall u, In u C -> exists v, In v C /\ In v (successors G u)) ->
  In u C -> In u (labels G) ->
  is_directed_acyclic_graph G = false.
Proof.
  intros Hsucc Hu Hlab. unfold is_directed_acyclic_graph.
  destruct (forallb _ (labels G)) eqn:E; [| reflexivity].
  rewrite forallb_forall in E. specialize (E u Hlab). apply Nat.ltb_lt in E.
  pose proof (longest_from_ciclo G C Hsucc (List.length (nodes G)) u Hu). lia.
Qed.

End Cycles.

(** X8.  On a graph with a cycle, a set of nodes each with an edge into the
    set, the analyzer does not fail for any report type: it leaves the
    height out of the report. *)
Theorem analyzer_omits_height_on_cycle (A : Arith) (G : DiGraph)
  (tipo : string) (C : list string) (u : string) :
  In u C -> In u (labels G) ->
  (forall u, In u C -> exists v, In v C /\ In v (successors G u)) ->
  exists r, analizar_grafo G tipo = Ok r /\ altura r = None.
Proof.
  intros Hu Hlab Hsucc.
  destruct (analizar_grafo_total G tipo) as (dist & ->).
  eexists. split; [reflexivity |]. cbn [altura].
  now rewrite (is_dag_ciclo G C u Hsucc Hu Hlab).
Qed.

Lemma analyzer_omits_height_on_cycle_witness :
  let G := add_edge "b" "a" "vuelta"
             (add_edge "a" "b" "ida" (@empty binary64)) in
  In "a" ["a"; "b"] /\ In "a" (labels G) /\
  (forall u, In u ["a"; "b"] ->
             exists v, In v ["a"; "b"] /\ In v (successors G u)) /\
  exists r, analizar_grafo G "dado" = Ok r /\ altura r = None.
Proof.
  intros G.
  assert (Ha : In "a" ["a"; "b"]) by (now left).
  assert (Hlab : In "a" (labels G)) by (vm_compute; tauto).
  assert (Hsucc : forall u, In u ["a"; "b"] ->
            exists v, In v ["a"; "b"] /\ In v (successors G u)).
  { intros u [<- | [<- | []]].
    - exists "b". split; [right; now left | vm_compute; tauto].
    - exists "a". split; [now left | vm_compute; tauto]. }
  split; [exact Ha |]. split; [exact Hlab |]. split; [exact Hsucc |].
  exact (analyzer_omits_height_on_cycle binary64 G "dado" ["a"; "b"] "a"
           Ha Hlab Hsucc).
Defined.

(** ** The drawing *)

(** A loop over values that are read first: it ends when every read
    succeeds, and stops at the first read that raises. *)
Lemma for_each_read {X Y S : Type} (read : X -> result Y)
  (step : Y -> X -> S -> S) (xs : list X) :
  forall s,
    for_each xs (fun x s => y <- read x ;; Ok (step y x s)) s =
    ys <- map_result read xs ;;
    Ok (fold_left (fun s xy => step (snd xy) (fst xy) s) (combine xs ys) s).
Proof.
  induction xs as [|x xs IH]; intros s; [reflexivity |].
  cbn [for_each map_result]. destruct (read x) as [y | e]; [| reflexivity].
  cbn [bind]. rewrite IH. destruct (map_result read xs); reflexivity.
Qed.

Lemma map_result_ok {X Y : Type} (f : X -> result Y) (g : X -> Y)
  (xs : list X) :
  (forall x, In x xs -> f x = Ok (g x)) -> map_result f xs = Ok (map g xs).
Proof.
  induction xs as [|x xs IH]; intros H; [reflexivity |].
  cbn [map_result map]. rewrite (H x) by now left. cbn [bind].
  rewrite IH by (intros y Hy; apply H; now right). reflexivity.
Qed.

Lemma map_result_raise {X Y : Type} (f : X -> result Y) (e : exn)
  (xs : list X) (x : X) :
  In x xs -> f x = Raise e ->
  (forall x', In x' xs -> (exists y, f x' = Ok y) \/ f x' = Raise e) ->
  map_result f xs = Raise e.
Proof.
  induction xs as [|x0 xs IH]; intros Hin Hx Hall; [contradiction |].
  cbn [map_result]. destruct Hin as [-> | Hin]; [now rewrite Hx |].
  destruct (Hall x0 (or_introl eq_refl)) as [(y & ->) | ->]; [| reflexivity].
  cbn [bind]. rewrite IH; [reflexivity | exact Hin | exact Hx |].
  intros x' Hx'. apply Hall. now right.
Qed.

Lemma map_result_length {X Y : Type} (f : X -> result Y) (xs : list X)
  (ys : list Y) :
  map_result f xs = Ok ys -> List.length ys = List.length xs.
Proof.
  revert ys. induction xs as [|x xs IH]; intros ys H; cbn [map_result] in H.
  - injection H as <-. reflexivity.
  - destruct (f x); [| discriminate]. cbn [bind] in H.
    destruct (map_result f xs) as [ys' |]; [| discriminate].
    cbn [bind] in H. injection H as <-. cbn. now rewrite (IH ys').
Qed.

Lemma fold_left_combine_map {X Y S : Type} (g : X -> Y)
  (step : Y -> X -> S -> S) (xs : list X) (s : S) :
  fold_left (fun s xy => step (snd xy) (fst xy) s) (combine xs (map g xs)) s =
  fold_left (fun s x => step (g x) x s) xs s.
Proof.
  revert s. induction xs as [|x xs IH]; intros s; [reflexivity |].
  cbn [map combine fold_left fst snd]. apply IH.
Qed.

Section Rows.
Context {A : Arith} {GA : Grafica A}.

Lemma niveles_de_read (G : DiGraph) :
  niveles_de G =
  nvs <- map_result (nivel_de G) (labels G) ;;
  Ok (fold_left (fun niveles ny => agrupar (snd ny) (fst ny) niveles)
        (combine (labels G) nvs) []).
Proof.
  unfold niveles_de.
  rewrite <- (for_each_read (nivel_de G) (fun nv n s => agrupar nv n s)).
  generalize (@nil (Z * list string)).
  induction (labels G) as [|n ns IH]; intros s; [reflexivity |].
  cbn [for_each]. unfold nivel_de at 1.
  destruct (node G n) as [a | e]; [| reflexivity]. cbn [bind].
  destruct (nivel a); [| reflexivity]. cbn [bind]. apply IH.
Qed.

Lemma agrupar_keys (nv k : Z) (n : string) (L : list (Z * list string)) :
  In k (map fst (agrupar nv n L)) <-> k = nv \/ In k (map fst L).
Proof.
  induction L as [|[x ns] L IH]; cbn [agrupar map fst In].
  - intuition.
  - destruct (Z.eqb_spec x nv) as [-> | Hx]; cbn [map fst In].
    + intuition.
    + rewrite IH. intuition.
Qed.

Lemma agrupar_NoDup (nv : Z) (n : string) (L : list (Z * list string)) :
  NoDup (map fst L) -> NoDup (map fst (agrupar nv n L)).
Proof.
  induction L as [|[x ns] L IH]; cbn [agrupar map fst]; intros Hnd.
  - repeat constructor. intros [].
  - inversion Hnd as [|? ? Hnotin Hnd']; subst.
    destruct (Z.eqb_spec x nv) as [-> | Hx]; cbn [map fst].
    + now constructor.
    + constructor; [| now apply IH].
      rewrite agrupar_keys. intros [-> | Hin]; [now apply Hx | now apply Hnotin].
Qed.

Lemma filter_snoc {X : Type} (f : X -> bool) (l : list X) (x : X) :
  filter f (l ++ [x]) = (filter f l ++ (if f x then [x] else []))%list.
Proof. rewrite filter_app. cbn. destruct (f x); reflexivity. Qed.

Lemma agrupar_rows (G : DiGraph) (P : list string) (n : string)
  (L : list (Z * list string)) :
  NoDup (map fst L) ->
  (~ In (nivel_o_cero G n) (map fst L) -> filter (fun m => nivel_o_cero G m =? nivel_o_cero G n) P = []) ->
  (forall k ns, In (k, ns) L ->
                ns = filter (fun m => nivel_o_cero G m =? k) P /\ ns <> []) ->
  forall k ns, In (k, ns) (agrupar (nivel_o_cero G n) n L) ->
               ns = filter (fun m => nivel_o_cero G m =? k) (P ++ [n]) /\ ns <> [].
Proof.
  induction L as [|[x xs] L IH]; intros Hnd Hnew Hrows k ns Hin;
    cbn [agrupar] in Hin.
  - destruct Hin as [Heq | []]. injection Heq as <- <-.
    rewrite filter_snoc, Z.eqb_refl, Hnew by (intros []).
    split; [reflexivity | discriminate].
  - inversion Hnd as [|? ? Hnotin Hnd']; subst. cbn [map fst] in *.
    destruct (Hrows x xs (or_introl eq_refl)) as [Hxs Hne].
    destruct (Z.eqb_spec x (nivel_o_cero G n)) as [Heq | Hx].
    + destruct Hin as [E | Hin].
      * injection E as <- <-. rewrite filter_snoc, Heq, Z.eqb_refl.
        rewrite <- Heq, <- Hxs. split; [reflexivity |].
        destruct xs; discriminate.
      * destruct (Hrows k ns (or_intror Hin)) as [Hns Hne'].
        split; [| exact Hne']. rewrite filter_snoc.
        destruct (Z.eqb_spec (nivel_o_cero G n) k) as [E | _];
          [| now rewrite app_nil_r].
        exfalso. apply Hnotin. rewrite Heq, E.
        now apply (in_map fst) in Hin.
    + destruct Hin as [E | Hin].
      * injection E as <- <-. split; [| exact Hne]. rewrite filter_snoc.
        destruct (Z.eqb_spec (nivel_o_cero G n) x) as [E | _];
          [congruence | now rewrite app_nil_r].
      * apply (IH Hnd'); [| | exact Hin].
        -- intros Hout. apply Hnew. intros [E | Hin']; [congruence | now apply Hout].
        -- intros k' ns' Hin'. apply Hrows. now right.
Qed.

Lemma filas_de_snoc (G : DiGraph) (P : list string) (n : string)
  (L : list (Z * list string)) :
  filas_de G P L -> filas_de G (P ++ [n]) (agrupar (nivel_o_cero G n) n L).
Proof.
  intros (Hnd & Hall & Hrows). split; [now apply agrupar_NoDup |]. split.
  - intros m Hm. rewrite agrupar_keys. apply in_app_iff in Hm.
    destruct Hm as [Hm | [<- | []]]; [right; now apply Hall | now left].
  - apply agrupar_rows; [exact Hnd | | exact Hrows].
    intros Hout. apply filter_none. intros m Hm.
    apply Z.eqb_neq. intros E. apply Hout. rewrite <- E. now apply Hall.
Qed.

Lemma filas_de_fold (G : DiGraph) (ns P : list string)
  (L : list (Z * list string)) :
  filas_de G P L ->
  filas_de G (P ++ ns) (fold_left (fun L n => agrupar (nivel_o_cero G n) n L) ns L).
Proof.
  revert P L. induction ns as [|n ns IH]; intros P L H.
  - now rewrite app_nil_r.
  - cbn [fold_left]. replace (P ++ n :: ns)%list with ((P ++ [n]) ++ ns)%list
      by (now rewrite <- app_assoc).
    apply IH. now apply filas_de_snoc.
Qed.

(** When every node has a level, the first loop ends with one row for each
    level that occurs, holding the nodes of that level in the order of the
    graph. *)
Lemma niveles_de_ok (G : DiGraph) :
  (forall n, In n (labels G) -> exists nv, nivel_de G n = Ok nv) ->
  exists L, niveles_de G = Ok L /\ filas_de G (labels G) L.
Proof.
  intros Hall. rewrite niveles_de_read.
  rewrite (map_result_ok (nivel_de G) (nivel_o_cero G)); cycle 1.
  { intros n Hn. unfold nivel_o_cero. destruct (Hall n Hn) as (nv & ->). reflexivity. }
  cbn [bind]. eexists. split; [reflexivity |].
  rewrite (fold_left_combine_map (nivel_o_cero G) (fun nv n s => agrupar nv n s)).
  apply (filas_de_fold G (labels G) [] []).
  split; [constructor |]. split; [intros n [] | intros k ns []].
Qed.

End Rows.

Section Positions.
Context {A : Arith} {GA : Grafica A}.

Lemma asignar_fresh {V : Type} (k : string) (v : V) (d : list (string * V)) :
  ~ In k (map fst d) -> asignar k v d = (d ++ [(k, v)])%list.
Proof.
  induction d as [|[k' v'] d IH]; intros H; [reflexivity |].
  cbn [asignar]. cbn [map fst In] in H.
  destruct (String.eqb_spec k' k) as [E | _]; [exfalso; apply H; now left |].
  cbn [app]. rewrite IH by (intros Hin; apply H; now right). reflexivity.
Qed.

Lemma map_fst_posiciones_fila (nv m i : Z) (ns : list string) :
  map fst (posiciones_fila nv m i ns) = ns.
Proof.
  revert i. induction ns as [|n ns IH]; intros i; [reflexivity |].
  cbn [posiciones_fila map fst]. now rewrite IH.
Qed.

Lemma posicionar_fresh (nv m : Z) (ns : list string) :
  forall (i : Z) (pos : list (string * (num * num))),
    NoDup (map fst pos ++ ns) ->
    posicionar nv m i ns pos = (pos ++ posiciones_fila nv m i ns)%list.
Proof.
  induction ns as [|n ns IH]; intros i pos Hnd.
  - cbn. now rewrite app_nil_r.
  - cbn [posicionar posiciones_fila].
    rewrite asignar_fresh; cycle 1.
    { apply NoDup_remove_2 in Hnd. intros H. apply Hnd, in_app_iff. now left. }
    rewrite IH.
    + rewrite <- app_assoc. reflexivity.
    + rewrite map_app. cbn [map fst]. rewrite <- app_assoc. exact Hnd.
Qed.

Lemma map_fst_posiciones_esperadas (L : list (Z * list string)) :
  map fst (posiciones_esperadas L) = List.concat (map snd L).
Proof.
  unfold posiciones_esperadas. induction L as [|e L IH]; [reflexivity |].
  cbn [map List.concat]. rewrite map_app, map_fst_posiciones_fila, IH. reflexivity.
Qed.

Lemma posiciones_fold (L : list (Z * list string)) :
  forall pos : list (string * (num * num)),
    NoDup (map fst pos ++ List.concat (map snd L)) ->
    fold_left (fun pos fila =>
                 posicionar (fst fila) (Z.of_nat (List.length (snd fila))) 0
                   (snd fila) pos) L pos =
    (pos ++ posiciones_esperadas L)%list.
Proof.
  unfold posiciones_esperadas.
  induction L as [|e L IH]; intros pos Hnd.
  - cbn. now rewrite app_nil_r.
  - cbn [fold_left map List.concat] in *. rewrite posicionar_fresh; cycle 1.
    { rewrite app_assoc in Hnd. now apply NoDup_app_remove_r in Hnd. }
    rewrite IH.
    + now rewrite <- app_assoc.
    + rewrite map_app, map_fst_posiciones_fila, <- app_assoc. exact Hnd.
Qed.

Lemma posiciones_ok (L : list (Z * list string)) :
  NoDup (List.concat (map snd L)) -> posiciones L = posiciones_esperadas L.
Proof. intros H. unfold posiciones. now rewrite posiciones_fold. Qed.

(** Rows of distinct levels share no node. *)
Lemma filas_de_NoDup (G : DiGraph) (P : list string)
  (L : list (Z * list string)) :
  NoDup P -> filas_de G P L -> NoDup (List.concat (map snd L)).
Proof.
  intros HP (Hnd & _ & Hrows). induction L as [|[k ns] L IH]; [constructor |].
  cbn [map fst snd List.concat] in *. inversion Hnd as [|? ? Hnotin Hnd']; subst.
  apply NoDup_app.
  - destruct (Hrows k ns (or_introl eq_refl)) as [-> _].
    now apply NoDup_filter.
  - apply IH; [exact Hnd' |]. intros k' ns' H. apply Hrows. now right.
  - intros n Hn Hn'. destruct (Hrows k ns (or_introl eq_refl)) as [E _].
    rewrite E in Hn. apply filter_In in Hn. destruct Hn as [_ Hk].
    apply Z.eqb_eq in Hk. apply in_concat in Hn'.
    destruct Hn' as (ns' & Hns' & Hn'). apply in_map_iff in Hns'.
    destruct Hns' as ([k' ns''] & E' & Hin). cbn [snd] in E'. subst ns''.
    destruct (Hrows k' ns' (or_intror Hin)) as [E'' _].
    rewrite E'' in Hn'. apply filter_In in Hn'. destruct Hn' as [_ Hk'].
    apply Z.eqb_eq in Hk'. apply Hnotin. rewrite <- Hk, Hk'.
    now apply (in_map fst) in Hin.
Qed.

Lemma filas_de_In (G : DiGraph) (P : list string)
  (L : list (Z * list string)) (n : string) :
  filas_de G P L -> (In n (List.concat (map snd L)) <-> In n P).
Proof.
  intros (Hnd & Hall & Hrows). rewrite in_concat. split.
  - intros (ns & Hns & Hn). apply in_map_iff in Hns.
    destruct Hns as ([k ns'] & E & Hin). cbn [snd] in E. subst ns'.
    destruct (Hrows k ns Hin) as [E _]. rewrite E in Hn.
    now apply filter_In in Hn.
  - intros Hn. specialize (Hall n Hn). apply in_map_iff in Hall.
    destruct Hall as ([k ns] & E & Hin). cbn [fst] in E. subst k.
    exists ns. split; [now apply (in_map snd) in Hin |].
    destruct (Hrows _ ns Hin) as [E _]. rewrite E. apply filter_In.
    split; [exact Hn | apply Z.eqb_refl].
Qed.

End Positions.

Lemma map_result_Ok_inv {X Y : Type} (f : X -> result Y) (xs : list X)
  (ys : list Y) :
  map_result f xs = Ok ys -> forall x, In x xs -> exists y, f x = Ok y.
Proof.
  revert ys. induction xs as [|x0 xs IH]; intros ys H x Hx; [contradiction |].
  cbn [map_result] in H. destruct (f x0) as [y0 |] eqn:E0; [| discriminate].
  cbn [bind] in H. destruct (map_result f xs) as [ys' |]; [| discriminate].
  destruct Hx as [<- | Hx]; [now exists y0 | now apply (IH ys')].
Qed.

Lemma map_result_Raise_inv {X Y : Type} (f : X -> result Y) (xs : list X)
  (e : exn) :
  map_result f xs = Raise e -> exists x, In x xs /\ f x = Raise e.
Proof.
  induction xs as [|x0 xs IH]; intros H; [discriminate |].
  cbn [map_result] in H. destruct (f x0) as [y0 |] eqn:E0.
  - cbn [bind] in H. destruct (map_result f xs) as [ys' | e']; [discriminate |].
    cbn [bind] in H. injection H as ->.
    destruct (IH eq_refl) as (x & Hx & Hfx). exists x. split; [now right | exact Hfx].
  - cbn [bind] in H. injection H as ->. exists x0. split; [now left | exact E0].
Qed.

Lemma forallb_false {X : Type} (f : X -> bool) (l : list X) :
  forallb f l = false -> exists x, In x l /\ f x = false.
Proof.
  induction l as [|x l IH]; [discriminate |]. cbn [forallb].
  destruct (f x) eqn:E; cbn [andb]; intros H.
  - destruct (IH H) as (y & Hy & Hfy). exists y. split; [now right | exact Hfy].
  - exists x. split; [now left | exact E].
Qed.

Section Drawings.
Context {A : Arith} {GA : Grafica A}.

Lemma nivel_de_raise (G : DiGraph) (n : string) (e : exn) :
  nivel_de G n = Raise e -> e = KeyError.
Proof.
  unfold nivel_de, node.
  destruct (find _ (nodes G)); cbn [bind]; [| now intros [= <-]].
  destruct (nivel _); [discriminate | now intros [= <-]].
Qed.

Lemma prob_de_raise (G : DiGraph) (n : string) (e : exn) :
  prob_de G n = Raise e -> e = KeyError.
Proof.
  unfold prob_de, node.
  destruct (find _ (nodes G)); cbn [bind]; [| now intros [= <-]].
  destruct (prob _); [discriminate | now intros [= <-]].
Qed.

Lemma completo_spec (G : DiGraph) (n : string) :
  completo G n = true <->
  (exists nv, nivel_de G n = Ok nv) /\ (exists p, prob_de G n = Ok p).
Proof.
  unfold completo, nivel_de, prob_de. destruct (node G n) as [a | e]; cbn [bind].
  - destruct (nivel a), (prob a); split; try discriminate;
      try (intros [(? & H1) (? & H2)]; discriminate);
      try (intros _; split; eexists; reflexivity); try reflexivity.
  - split; [discriminate | intros [(? & H) _]; discriminate].
Qed.

(** The drawing of a graph whose nodes all have a level and a probability. *)
Lemma visualizar_arbol_ok (G : DiGraph) (t f : string) :
  forallb (completo G) (labels G) = true ->
  exists L sizes etqs,
    niveles_de G = Ok L /\ filas_de G (labels G) L /\
    List.length sizes = List.length (labels G) /\
    map_result (fun n => e <- etiqueta_de G n ;; Ok (n, e)) (labels G)
    = Ok etqs /\
    visualizar_arbol G t f =
    Ok {| pos := posiciones L;
          node_color := map (color_de G) (labels G);
          node_size := sizes;
          etiquetas := etqs;
          edge_labels := map (fun e => (src e, tgt e, label e)) (edges G);
          titulo := t;
          archivo := f |}.
Proof.
  intros Hc. rewrite forallb_forall in Hc.
  assert (Hnv : forall n, In n (labels G) -> exists nv, nivel_de G n = Ok nv).
  { intros n Hn. now apply Hc, completo_spec in Hn. }
  assert (Hp : forall n, In n (labels G) -> exists p, prob_de G n = Ok p).
  { intros n Hn. now apply Hc, completo_spec in Hn. }
  destruct (niveles_de_ok G Hnv) as (L & HL & Hfilas).
  set (pr := fun n => match prob_de G n with Ok p => p | Raise _ => of_int 0 end).
  assert (Hsizes : map_result (fun n => p <- prob_de G n ;;
                                 Ok (add (mul p (of_int 2000)) (of_int 500)))
                     (labels G) = Ok (map (fun n => tamano (pr n)) (labels G))).
  { apply map_result_ok. intros n Hn. unfold pr.
    destruct (Hp n Hn) as (p & ->). reflexivity. }
  set (et := fun n =>
               if String.eqb n "Inicio" then "Inicio" ++ salto ++ "P=1.0"
               else replace "Inicio" "" n ++ salto ++ "P=" ++ formato 4 (pr n)).
  assert (Hetq : map_result (fun n => e <- etiqueta_de G n ;; Ok (n, e))
                   (labels G) = Ok (map (fun n => (n, et n)) (labels G))).
  { apply map_result_ok. intros n Hn. unfold etiqueta_de, et, pr.
    destruct (String.eqb n "Inicio"); [reflexivity |].
    destruct (Hp n Hn) as (p & ->). reflexivity. }
  exists L, (map (fun n => tamano (pr n)) (labels G)),
         (map (fun n => (n, et n)) (labels G)).
  split; [exact HL |]. split; [exact Hfilas |].
  split; [apply length_map |]. split; [exact Hetq |].
  unfold visualizar_arbol. rewrite HL. cbn [bind].
  rewrite Hsizes. cbn [bind]. rewrite Hetq. reflexivity.
Qed.

Lemma visualizar_arbol_raise (G : DiGraph) (t f : string) :
  forallb (completo G) (labels G) = false ->
  visualizar_arbol G t f = Raise KeyError.
Proof.
  intros Hc. apply forallb_false in Hc. destruct Hc as (n & Hn & Hinc).
  unfold visualizar_arbol. rewrite niveles_de_read.
  destruct (map_result (nivel_de G) (labels G)) as [nvs | e] eqn:E1.
  - cbn [bind].
    destruct (map_result
                (fun n0 => p <- prob_de G n0 ;;
                           Ok (add (mul p (of_int 2000)) (of_int 500)))
                (labels G)) as [sizes | e] eqn:E2.
    + exfalso. assert (Hok : completo G n = true); [| congruence].
      apply completo_spec. split.
      * exact (map_result_Ok_inv _ _ _ E1 n Hn).
      * destruct (map_result_Ok_inv _ _ _ E2 n Hn) as (y & Hy).
        destruct (prob_de G n) as [p |]; [now exists p | discriminate].
    + cbn [bind]. apply map_result_Raise_inv in E2.
      destruct E2 as (x & _ & Hx).
      destruct (prob_de G x) as [p | e'] eqn:Ep; [discriminate |].
      cbn [bind] in Hx. injection Hx as <-.
      now rewrite (prob_de_raise G x e' Ep).
  - cbn [bind]. apply map_result_Raise_inv in E1. destruct E1 as (x & _ & Hx).
    now rewrite (nivel_de_raise G x e Hx).
Qed.

Lemma drawing_needs_level_and_probability_aux (G : DiGraph) (t f : string) :
  forallb (completo G) (labels G) = true ->
  exists d,
    visualizar_arbol G t f = Ok d /\
    map fst (etiquetas d) = labels G /\
    map_result (fun n => e <- etiqueta_de G n ;; Ok (n, e)) (labels G)
    = Ok (etiquetas d).
Proof.
  intros Hc.
  destruct (visualizar_arbol_ok G t f Hc)
    as (L & sizes & etqs & _ & _ & _ & Hetq & Hd).
  eexists. split; [exact Hd |]. cbn [etiquetas]. split; [| exact Hetq].
  clear - Hetq. revert etqs Hetq.
  induction (labels G) as [|n ns IH]; intros etqs H; cbn [map_result] in H.
  - injection H as <-. reflexivity.
  - destruct (etiqueta_de G n); [| discriminate]. cbn [bind] in H.
    destruct (map_result _ ns) as [r |]; [| discriminate].
    cbn [bind] in H. injection H as <-. cbn [map fst]. f_equal.
    now apply IH.
Qed.

End Drawings.

(** X9.  On a graph whose levels are below [2^63] in magnitude, where the
    layout converts them as the interpreter does and cannot overflow, the
    part of [visualizar_arbol] that precedes the plotting calls reads the
    level and the probability of every node: it yields its positions,
    colours, sizes and texts exactly when every node has both attributes, and
    raises [KeyError], and nothing else, when some node lacks one. *)
Theorem drawing_needs_level_and_probability (A : Arith) (GA : Grafica A)
  (G : DiGraph) (t f : string) :
  forallb (nivel_pequeno G) (labels G) = true ->
  match visualizar_arbol G t f with
  | Ok d => forallb (completo G) (labels G) = true /\
            List.length (node_color d) = List.length (labels G) /\
            List.length (node_size d) = List.length (labels G) /\
            map fst (etiquetas d) = labels G
  | Raise e => e = KeyError /\ forallb (completo G) (labels G) = false
  end.
Proof.
  intros _. destruct (forallb (completo G) (labels G)) eqn:Hc.
  - destruct (visualizar_arbol_ok G t f Hc)
      as (L & sizes & etqs & _ & _ & Hsizes & Hetq & ->).
    cbn [node_color node_size etiquetas]. split; [reflexivity |].
    split; [apply length_map |]. split; [exact Hsizes |].
    clear - Hetq. revert etqs Hetq.
    induction (labels G) as [|n ns IH]; intros etqs H; cbn [map_result] in H.
    + injection H as <-. reflexivity.
    + destruct (etiqueta_de G n); [| discriminate]. cbn [bind] in H.
      destruct (map_result _ ns) as [r |]; [| discriminate].
      cbn [bind] in H. injection H as <-. cbn [map fst]. f_equal.
      now apply IH.
  - rewrite (visualizar_arbol_raise G t f Hc). split; reflexivity.
Qed.

Lemma drawing_needs_level_and_probability_witness :
  forallb (nivel_pequeno (@arbol_monedas binary64 2))
          (labels (@arbol_monedas binary64 2)) = true /\
  exists d,
    visualizar_arbol (@arbol_monedas binary64 2) "t" "f" = Ok d /\
    List.length (node_color d) = 7%nat.
Proof.
  assert (Hb : forallb (nivel_pequeno (@arbol_monedas binary64 2))
                 (labels (@arbol_monedas binary64 2)) = true)
    by (vm_compute; reflexivity).
  split; [exact Hb |].
  pose proof (drawing_needs_level_and_probability binary64 _
                (@arbol_monedas binary64 2) "t" "f" Hb) as H.
  destruct (visualizar_arbol (@arbol_monedas binary64 2) "t" "f") as [d | e].
  - exists d. split; [reflexivity |]. destruct H as (_ & Hc & _).
    rewrite Hc. reflexivity.
  - exfalso. destruct H as [_ Hf]. vm_compute in Hf. discriminate Hf.
Defined.

Section Places.
Context {A : Arith} {GA : Grafica A}.

Lemma posiciones_fila_In (k m : Z) (ns : list string) :
  forall (i : Z) (n : string) (x y : num),
    In (n, (x, y)) (posiciones_fila k m i ns) ->
    exists j : nat,
      nth_error ns j = Some n /\
      x = mul (sub (of_int (i + Z.of_nat j)) (div (of_int m) (of_int 2)))
              lit_1_5 /\
      y = mul (of_int (- k)) lit_2_5.
Proof.
  induction ns as [|n0 ns IH]; intros i n x y Hin; [contradiction |].
  cbn [posiciones_fila] in Hin. destruct Hin as [Heq | Hin].
  - injection Heq as <- <- <-. exists O. cbn [nth_error].
    rewrite Z.add_0_r. repeat split.
  - destruct (IH (i + 1) n x y Hin) as (j & Hj & Hx & Hy).
    exists (S j). cbn [nth_error]. split; [exact Hj |]. split; [| exact Hy].
    rewrite Hx. do 3 f_equal. lia.
Qed.

Lemma posiciones_esperadas_In (L : list (Z * list string)) (n : string)
  (x y : num) :
  In (n, (x, y)) (posiciones_esperadas L) ->
  exists k ns j,
    In (k, ns) L /\ nth_error ns j = Some n /\
    x = mul (sub (of_int (Z.of_nat j))
                 (div (of_int (Z.of_nat (List.length ns))) (of_int 2)))
            lit_1_5 /\
    y = mul (of_int (- k)) lit_2_5.
Proof.
  unfold posiciones_esperadas. intros Hin. apply in_concat in Hin.
  destruct Hin as (row & Hrow & Hin). apply in_map_iff in Hrow.
  destruct Hrow as ([k ns] & <- & HL). cbn [fst snd] in Hin.
  apply posiciones_fila_In in Hin. destruct Hin as (j & Hj & Hx & Hy).
  exists k, ns, j. repeat split; assumption.
Qed.

Lemma visualizar_arbol_pos (G : DiGraph) (t f : string) :
  NoDup (labels G) ->
  forallb (completo G) (labels G) = true ->
  exists d L,
    visualizar_arbol G t f = Ok d /\
    filas_de G (labels G) L /\
    pos d = posiciones_esperadas L.
Proof.
  intros Hnd Hc.
  destruct (visualizar_arbol_ok G t f Hc)
    as (L & sizes & etqs & _ & Hfilas & _ & _ & Hd).
  eexists. exists L. split; [exact Hd |]. split; [exact Hfilas |].
  cbn [pos]. apply posiciones_ok. now apply (filas_de_NoDup G (labels G)).
Qed.

End Places.

(** X10.  On a graph whose nodes are distinct and all have a probability and
    a level, the levels below [2^63] in magnitude, the layout gives every
    node exactly one position; the height of a position is [-2.5] times the
    level of its node, the level converted as the interpreter does, so the
    nodes of one level lie on one line. *)
Theorem drawing_places_every_node_once (A : Arith) (GA : Grafica A)
  (G : DiGraph) (t f : string) :
  NoDup (labels G) ->
  forallb (completo G) (labels G) = true ->
  forallb (nivel_pequeno G) (labels G) = true ->
  exists d,
    visualizar_arbol G t f = Ok d /\
    Permutation (map fst (pos d)) (labels G) /\
    forall n x y, In (n, (x, y)) (pos d) ->
                  y = mul (of_int (- nivel_o_cero G n)) lit_2_5.
Proof.
  intros Hnd Hc _.
  destruct (visualizar_arbol_pos G t f Hnd Hc) as (d & L & Hd & Hfilas & Hpos).
  exists d. split; [exact Hd |]. rewrite Hpos. split.
  - rewrite map_fst_posiciones_esperadas. apply NoDup_Permutation.
    + now apply (filas_de_NoDup G (labels G)).
    + exact Hnd.
    + intros n. exact (filas_de_In G (labels G) L n Hfilas).
  - intros n x y Hin. apply posiciones_esperadas_In in Hin.
    destruct Hin as (k & ns & j & HL & Hj & _ & ->).
    destruct Hfilas as (_ & _ & Hrows). destruct (Hrows k ns HL) as [E _].
    apply nth_error_In in Hj. rewrite E in Hj. apply filter_In in Hj.
    destruct Hj as [_ Hk]. apply Z.eqb_eq in Hk. now rewrite Hk.
Qed.

Lemma drawing_places_every_node_once_witness :
  NoDup (labels (@arbol_monedas binary64 2)) /\
  forallb (completo (@arbol_monedas binary64 2))
          (labels (@arbol_monedas binary64 2)) = true /\
  forallb (nivel_pequeno (@arbol_monedas binary64 2))
          (labels (@arbol_monedas binary64 2)) = true /\
  exists d,
    visualizar_arbol (@arbol_monedas binary64 2) "t" "f" = Ok d /\
    Permutation (map fst (pos d)) (labels (@arbol_monedas binary64 2)).
Proof.
  assert (Hnd : NoDup (labels (@arbol_monedas binary64 2)))
    by apply NoDup_arbol_monedas.
  assert (Hc : forallb (completo (@arbol_monedas binary64 2))
                 (labels (@arbol_monedas binary64 2)) = true)
    by (vm_compute; reflexivity).
  assert (Hb : forallb (nivel_pequeno (@arbol_monedas binary64 2))
                 (labels (@arbol_monedas binary64 2)) = true)
    by (vm_compute; reflexivity).
  split; [exact Hnd |]. split; [exact Hc |]. split; [exact Hb |].
  destruct (drawing_places_every_node_once binary64 _
              (@arbol_monedas binary64 2) "t" "f" Hnd Hc Hb)
    as (d & Hd & Hp & _).
  exists d. split; [exact Hd | exact Hp].
Defined.

(** X11.  In double precision no two nodes get the same position in the
    three drawings the menu makes: the coin trees of two and of three flips
    and the dice tree. *)
Theorem drawing_positions_distinct :
  (forall (limit : nat) (n : Z) (t f : string),
      (n = 2 \/ n = 3) -> n < Z.of_nat limit ->
      exists (G : @DiGraph binary64) d,
        crear_arbol_monedas limit n = Ok G /\
        visualizar_arbol G t f = Ok d /\
        puntos_distintos (map snd (pos d)) = true) /\
  (forall t f : string,
      exists d,
        visualizar_arbol (@crear_arbol_dado binary64) t f = Ok d /\
        puntos_distintos (map snd (pos d)) = true).
Proof.
  split.
  - intros limit n t f Hn Hl.
    exists (arbol_monedas (Z.to_nat n)).
    destruct Hn as [-> | ->].
    + eexists. split; [apply crear_arbol_monedas_ok; lia |].
      split; [vm_compute; reflexivity | vm_compute; reflexivity].
    + eexists. split; [apply crear_arbol_monedas_ok; lia |].
      split; [vm_compute; reflexivity | vm_compute; reflexivity].
  - intros t f. eexists.
    split; [vm_compute; reflexivity | vm_compute; reflexivity].
Qed.

(** ** The drawing of the coin tree *)

Section CoinDrawing.
Context {A : Arith} {GA : Grafica A}.

Lemma nivel_o_cero_entry (G : DiGraph) (l : string) (a : attrs) :
  NoDup (labels G) -> In (l, a) (nodes G) ->
  nivel_o_cero G l = match nivel a with Some d => d | None => 0 end.
Proof.
  intros Hnd Hin. unfold nivel_o_cero, nivel_de.
  rewrite (node_In G l a Hnd Hin). cbn [bind]. destruct (nivel a); reflexivity.
Qed.

Lemma completo_arbol_monedas (k : nat) :
  forallb (completo (arbol_monedas k)) (labels (arbol_monedas k)) = true.
Proof.
  apply forallb_forall. intros l Hl. apply In_labels in Hl.
  destruct Hl as (a & Ha). unfold completo.
  rewrite (node_In _ l a (NoDup_arbol_monedas k) Ha).
  cbn [nodes arbol_monedas] in Ha. destruct Ha as [Heq | Ha].
  - injection Heq as <- <-. reflexivity.
  - apply nodos_bajo_attrs in Ha. destruct Ha as (j & _ & _ & ->). reflexivity.
Qed.

Lemma filter_map_fst {X Y : Type} (f : X -> bool) (l : list (X * Y)) :
  filter f (map fst l) = map fst (filter (fun e => f (fst e)) l).
Proof.
  induction l as [|e l IH]; [reflexivity |]. cbn [map filter].
  destruct (f (fst e)); cbn [map]; now rewrite IH.
Qed.

(** The nodes of one level below [res]. *)
Lemma nivel_nodos_bajo (k : nat) :
  forall (res : string) (p : num) (lv d : Z),
    List.length
      (filter (fun e => match nivel (snd e) with
                        | Some x => x =? d
                        | None => false
                        end) (nodos_bajo k res p lv)) =
    if (lv <? d) && (d <=? lv + Z.of_nat k)
    then (2 ^ Z.to_nat (d - lv))%nat else O.
Proof.
  induction k as [|k IH]; intros res p lv d.
  - cbn [nodos_bajo filter List.length].
    destruct (Z.ltb_spec lv d), (Z.leb_spec d (lv + Z.of_nat 0));
      cbn [andb]; try reflexivity; lia.
  - cbn [nodos_bajo]. rewrite filter_app, length_app. cbn [filter snd].
    cbn [nodo_moneda nivel].
    destruct (Z.eqb_spec (lv + 1) d) as [Hd | Hd]; cbn [List.length];
      rewrite !IH.
    + replace ((lv + 1 <? d) && (d <=? lv + 1 + Z.of_nat k)) with false
        by (symmetry; apply andb_false_iff; left; apply Z.ltb_ge; lia).
      replace ((lv <? d) && (d <=? lv + Z.of_nat (S k))) with true; cycle 1.
      { symmetry. apply andb_true_iff. split;
          [apply Z.ltb_lt | apply Z.leb_le]; lia. }
      replace (Z.to_nat (d - lv)) with 1%nat by lia. reflexivity.
    + destruct (Z.ltb_spec (lv + 1) d) as [Hlt | Hge];
        destruct (Z.leb_spec d (lv + 1 + Z.of_nat k)) as [Hle | Hgt];
        cbn [andb].
      * replace ((lv <? d) && (d <=? lv + Z.of_nat (S k))) with true; cycle 1.
        { symmetry. apply andb_true_iff. split;
            [apply Z.ltb_lt | apply Z.leb_le]; lia. }
        replace (Z.to_nat (d - lv)) with (S (Z.to_nat (d - (lv + 1)))) by lia.
        rewrite Nat.pow_succ_r'. lia.
      * replace ((lv <? d) && (d <=? lv + Z.of_nat (S k))) with false;
          [reflexivity |].
        symmetry. apply andb_false_iff. right. apply Z.leb_gt. lia.
      * replace ((lv <? d) && (d <=? lv + Z.of_nat (S k))) with false;
          [reflexivity |].
        symmetry. apply andb_false_iff. left. apply Z.ltb_ge. lia.
      * replace ((lv <? d) && (d <=? lv + Z.of_nat (S k))) with false;
          [reflexivity |].
        symmetry. apply andb_false_iff. left. apply Z.ltb_ge. lia.
Qed.

Lemma nivel_arbol_monedas (k : nat) (d : Z) :
  0 <= d <= Z.of_nat k ->
  List.length (filter (fun n => nivel_o_cero (arbol_monedas k) n =? d)
                      (labels (arbol_monedas k))) =
  (2 ^ Z.to_nat d)%nat.
Proof.
  intros Hd. unfold labels. rewrite filter_map_fst, length_map.
  rewrite (filter_ext_in _
             (fun e => match nivel (snd e) with
                       | Some x => x =? d
                       | None => false
                       end)); cycle 1.
  { intros [l a] Hin. cbn [fst snd].
    rewrite (nivel_o_cero_entry _ l a (NoDup_arbol_monedas k) Hin).
    cbn [nodes arbol_monedas] in Hin. destruct Hin as [Heq | Hin].
    - injection Heq as <- <-. reflexivity.
    - apply nodos_bajo_attrs in Hin. destruct Hin as (j & _ & _ & ->).
      reflexivity. }
  cbn [nodes arbol_monedas filter snd raiz nivel].
  destruct (Z.eqb_spec 0 d) as [<- | Hne]; cbn [List.length];
    rewrite nivel_nodos_bajo.
  - reflexivity.
  - replace ((0 <? d) && (d <=? 0 + Z.of_nat k)) with true; cycle 1.
    { symmetry. apply andb_true_iff. split;
        [apply Z.ltb_lt | apply Z.leb_le]; lia. }
    now rewrite Z.sub_0_r.
Qed.

Lemma fila_In (L : list (Z * list string)) (k : Z) (ns : list string) :
  NoDup (map fst L) -> In (k, ns) L -> fila L k = ns.
Proof.
  unfold fila. induction L as [|[x xs] L IH]; intros Hnd Hin; [contradiction |].
  cbn [map fst] in Hnd. inversion Hnd as [|? ? Hnotin Hnd']; subst.
  cbn [find fst]. destruct Hin as [Heq | Hin].
  - injection Heq as -> ->. now rewrite Z.eqb_refl.
  - destruct (Z.eqb_spec x k) as [-> | _]; [| now apply IH].
    exfalso. apply Hnotin. now apply (in_map fst) in Hin.
Qed.

Lemma color_de_arbol_monedas (k : nat) (l : string) (a : attrs) :
  In (l, a) (nodes (arbol_monedas k)) ->
  color_de (arbol_monedas k) l =
  if String.eqb l "Inicio" then "lightgreen"
  else if match nivel a with
          | Some d => d =? Z.of_nat k
          | None => false
          end
       then "lightcoral" else "lightblue".
Proof.
  intros Hin. unfold color_de.
  destruct (String.eqb l "Inicio"); [reflexivity |].
  destruct (salidas_nodos_bajo k "Inicio" lit_1_0 0 raiz l a eq_refl Hin)
    as (d & Hd & _ & Hsal).
  rewrite out_degree_salidas. cbn [edges arbol_monedas]. rewrite Hsal, Hd.
  replace (0 + Z.of_nat k) with (Z.of_nat k) by lia.
  destruct (d =? Z.of_nat k); reflexivity.
Qed.

End CoinDrawing.

(** X12.  The first loop of the drawing puts the coin tree of [n] flips in
    rows: there is a row for each level from 0 to [n] and for no other, and
    the row of level [d] holds [2^d] nodes. *)
Theorem coin_drawing_rows (A : Arith) (GA : Grafica A) (limit : nat) (n : Z) :
  0 <= n -> n < Z.of_nat limit ->
  exists G L,
    crear_arbol_monedas limit n = Ok G /\
    niveles_de G = Ok L /\
    (forall d, In d (map fst L) <-> 0 <= d <= n) /\
    (forall d, 0 <= d <= n -> Z.of_nat (List.length (fila L d)) = 2 ^ d).
Proof.
  intros Hn Hl. exists (arbol_monedas (Z.to_nat n)).
  destruct (niveles_de_ok (arbol_monedas (Z.to_nat n))) as (L & HL & Hfilas).
  { intros l Hl'. pose proof (completo_arbol_monedas (Z.to_nat n)) as Hc.
    rewrite forallb_forall in Hc. now apply Hc, completo_spec in Hl'. }
  exists L. split; [now apply crear_arbol_monedas_ok |]. split; [exact HL |].
  destruct Hfilas as (Hnd & Hall & Hrows).
  assert (Hcount : forall d, 0 <= d <= n ->
            List.length (filter (fun l => nivel_o_cero
                                            (arbol_monedas (Z.to_nat n)) l =? d)
                                (labels (arbol_monedas (Z.to_nat n)))) =
            (2 ^ Z.to_nat d)%nat).
  { intros d Hd. apply nivel_arbol_monedas. lia. }
  split.
  - intros d. split.
    + intros Hd. apply in_map_iff in Hd. destruct Hd as ([k ns] & <- & Hin).
      cbn [fst]. destruct (Hrows k ns Hin) as [E Hne].
      destruct ns as [|l ns]; [contradiction |].
      assert (Hl' : In l (l :: ns)) by now left.
      rewrite E in Hl'. apply filter_In in Hl'. destruct Hl' as [Hlab Hk].
      apply Z.eqb_eq in Hk. apply In_labels in Hlab. destruct Hlab as (a & Ha).
      rewrite (nivel_o_cero_entry _ l a (NoDup_arbol_monedas _) Ha) in Hk.
      cbn [nodes arbol_monedas] in Ha. destruct Ha as [Heq | Ha].
      * injection Heq as <- <-. cbn in Hk. lia.
      * apply nodos_bajo_attrs in Ha. destruct Ha as (j & Hj & _ & ->).
        cbn in Hk. lia.
    + intros Hd. specialize (Hcount d Hd).
      destruct (filter _ (labels (arbol_monedas (Z.to_nat n))))
        as [|l ls] eqn:E.
      * cbn in Hcount. pose proof (Nat.pow_nonzero 2 (Z.to_nat d)). lia.
      * assert (Hl' : In l (l :: ls)) by now left.
        rewrite <- E in Hl'. apply filter_In in Hl'. destruct Hl' as [Hlab Hk].
        apply Z.eqb_eq in Hk. rewrite <- Hk. now apply Hall.
  - intros d Hd.
    assert (Hkey : In d (map fst L)).
    { specialize (Hcount d Hd).
      destruct (filter _ (labels (arbol_monedas (Z.to_nat n))))
        as [|l ls] eqn:E.
      - cbn in Hcount. pose proof (Nat.pow_nonzero 2 (Z.to_nat d)). lia.
      - assert (Hl' : In l (l :: ls)) by now left.
        rewrite <- E in Hl'. apply filter_In in Hl'. destruct Hl' as [Hlab Hk].
        apply Z.eqb_eq in Hk. rewrite <- Hk. now apply Hall. }
    apply in_map_iff in Hkey. destruct Hkey as ([k ns] & E & Hin).
    cbn [fst] in E. subst k. rewrite (fila_In L d ns Hnd Hin).
    destruct (Hrows d ns Hin) as [-> _]. rewrite (Hcount d Hd).
    rewrite Nat2Z.inj_pow. f_equal. lia.
Qed.

Lemma coin_drawing_rows_witness :
  0 <= 2 /\ 2 < Z.of_nat 1000 /\
  exists (G : @DiGraph binary64) L,
    crear_arbol_monedas 1000 2 = Ok G /\
    niveles_de G = Ok L /\
    Z.of_nat (List.length (fila L 2)) = 2 ^ 2.
Proof.
  split; [lia |]. split; [lia |].
  destruct (coin_drawing_rows binary64 _ 1000%nat 2)
    as (G & L & HG & HL & _ & Hrows); [lia | lia |].
  exists G, L. split; [exact HG |]. split; [exact HL |]. apply Hrows. lia.
Defined.

(** X13.  In the drawing of the coin tree of [n] flips the root is green,
    even with no flip, when it is a leaf too; every other node is coral at
    level [n] and blue above it. *)
Theorem coin_drawing_colours (A : Arith) (GA : Grafica A) (limit : nat)
  (n : Z) (t f : string) :
  0 <= n -> n < Z.of_nat limit ->
  exists G d,
    crear_arbol_monedas limit n = Ok G /\
    visualizar_arbol G t f = Ok d /\
    node_color d =
    map (fun e =>
           if String.eqb (fst e) "Inicio" then "lightgreen"
           else if match nivel (snd e) with
                   | Some lv => lv =? n
                   | None => false
                   end
                then "lightcoral" else "lightblue")
        (nodes G).
Proof.
  intros Hn Hl. exists (arbol_monedas (Z.to_nat n)).
  destruct (visualizar_arbol_ok (arbol_monedas (Z.to_nat n)) t f
              (completo_arbol_monedas _))
    as (L & sizes & etqs & _ & _ & _ & _ & Hd).
  eexists. split; [now apply crear_arbol_monedas_ok |].
  split; [exact Hd |]. cbn [node_color]. unfold labels. rewrite map_map.
  apply map_ext_in. intros [l a] Hin. cbn [fst snd].
  rewrite (color_de_arbol_monedas _ l a Hin).
  replace (Z.of_nat (Z.to_nat n)) with n by lia. reflexivity.
Qed.

Lemma coin_drawing_colours_witness :
  0 <= 0 /\ 0 < Z.of_nat 1000 /\
  exists (G : @DiGraph binary64) d,
    crear_arbol_monedas 1000 0 = Ok G /\
    visualizar_arbol G "t" "f" = Ok d /\
    hojas_de G = ["Inicio"] /\
    node_color d = ["lightgreen"].
Proof.
  split; [lia |]. split; [lia |].
  destruct (coin_drawing_colours binary64 _ 1000%nat 0 "t" "f")
    as (G & d & HG & Hd & Hcol); [lia | lia |].
  exists G, d. split; [exact HG |]. split; [exact Hd |].
  rewrite Hcol. clear Hd Hcol.
  rewrite crear_arbol_monedas_ok in HG by lia. injection HG as <-.
  split; reflexivity.
Defined.

(** ** The dice tree and the menu *)

(** X14.  In the dice tree, for all faces [i] and [j] from 1 to 6, the node
    labelled [i,j] is a leaf at level 2 that carries the sum [i + j]; its
    only parent is the node [i], whose only parent is the root and whose
    children are [i,1] to [i,6] in this order. *)
Theorem dice_leaf_sums (A : Arith) (i j : Z) :
  1 <= i <= 6 -> 1 <= j <= 6 ->
  let G := crear_arbol_dado in
  node G (str i ++ "," ++ str j) =
  Ok {| prob := Some (mul (div (of_int 1) (of_int 6))
                          (div (of_int 1) (of_int 6)));
        nivel := Some 2;
        suma := Some (i + j) |} /\
  out_degree G (str i ++ "," ++ str j) = 0 /\
  predecessors G (str i ++ "," ++ str j) = [str i] /\
  predecessors G (str i) = ["Inicio"] /\
  successors G (str i) = map (fun k => str i ++ "," ++ str k) (range 1 7).
Proof.
  intros Hi Hj.
  assert (Ci : i = 1 \/ i = 2 \/ i = 3 \/ i = 4 \/ i = 5 \/ i = 6) by lia.
  assert (Cj : j = 1 \/ j = 2 \/ j = 3 \/ j = 4 \/ j = 5 \/ j = 6) by lia.
  clear Hi Hj.
  destruct Ci as [-> | [-> | [-> | [-> | [-> | ->]]]]];
    destruct Cj as [-> | [-> | [-> | [-> | [-> | ->]]]]];
    vm_compute; repeat split.
Qed.

Lemma dice_leaf_sums_witness :
  1 <= 3 <= 6 /\ 1 <= 5 <= 6 /\
  node (@crear_arbol_dado binary64) "3,5" =
  Ok (@Build_attrs binary64
        (Some (PrimFloat.mul (PrimFloat.div 1 6) (PrimFloat.div 1 6)))
        (Some 2) (Some 8)).
Proof.
  assert (H3 : 1 <= 3 <= 6) by lia. assert (H5 : 1 <= 5 <= 6) by lia.
  split; [exact H3 |]. split; [exact H5 |].
  exact (proj1 (dice_leaf_sums binary64 3 5 H3 H5)).
Defined.

(** X15.  The table that the dice report prints, with the probabilities in
    the format [.4f] of the program, and the three remarks that menu option
    3 prints as fixed text: [0.1667] for the sum 7 is the largest entry,
    [0.0278] for the sums 2 and 12 the smallest, and the even sums have 18
    of the 36 leaves, [0.5000]. *)
Theorem dice_printed_table :
  exists r ls,
    analizar_grafo (@crear_arbol_dado binary64) "dado" = Ok r /\
    distribucion r = Some ls /\
    map (fun l => (l_suma l, l_formas l, formato 4 (l_prob l))) ls =
    [(2, 1, "0.0278"); (3, 2, "0.0556"); (4, 3, "0.0833"); (5, 4, "0.1111");
     (6, 5, "0.1389"); (7, 6, "0.1667"); (8, 5, "0.1389"); (9, 4, "0.1111");
     (10, 3, "0.0833"); (11, 2, "0.0556"); (12, 1, "0.0278")] /\
    Forall (fun l => 1 <= l_formas l <= 6) ls /\
    map l_suma (filter (fun l => l_formas l =? 6) ls) = [7] /\
    map l_suma (filter (fun l => l_formas l =? 1) ls) = [2; 12] /\
    fold_right Z.add 0
      (map l_formas (filter (fun l => Z.even (l_suma l)) ls)) = 18 /\
    nodos_hoja r = 36 /\
    formato 4 (@div binary64 (of_int 18) (of_int 36)) = "0.5000".
Proof.
  eexists. eexists. split; [vm_compute; reflexivity |].
  split; [reflexivity |].
  split; [vm_compute; reflexivity |].
  split.
  { repeat (apply Forall_cons; [cbn; lia |]). apply Forall_nil. }
  repeat split; vm_compute; reflexivity.
Qed.

Section Menu.
Context {A : Arith} {GA : Grafica A}.

Lemma completo_crear_arbol_dado :
  forallb (completo crear_arbol_dado) (labels crear_arbol_dado) = true.
Proof. vm_compute. reflexivity. Qed.

End Menu.

(** X16.  What one round of the menu computes, the calls that print and plot
    aside, when [generar_nodos] may nest four calls deep.  The option is
    chosen by comparing the typed line itself: ["1"] gives the tree of two
    flips, with its 4 leaves and the sample space CC, CS, SC, SS; ["2"] the
    tree of three flips, with its 8 leaves and 1, 3, 3, 1 of them for 0, 1,
    2, 3 heads; ["3"] the dice tree with its 36 leaves; ["0"] says goodbye;
    and every other line, also one that differs from an option by a blank, is
    answered as not valid.  The calls that open the figure, draw, save and
    show it are not part of [menu]: nothing is said of what they raise. *)
Theorem menu_dispatch (A : Arith) (GA : Grafica A) (limit : nat)
  (opcion : string) :
  (3 < limit)%nat ->
  exists s,
    menu limit opcion = Ok s /\
    match s with
    | Monedas2 _ r omega =>
        opcion = "1" /\ nodos_hoja r = 4 /\ omega = ["CC"; "CS"; "SC"; "SS"]
    | Monedas3 _ r caras =>
        opcion = "2" /\ nodos_hoja r = 8 /\
        caras = [(0, 1, div (of_int 1) (of_int 8));
                 (1, 3, div (of_int 3) (of_int 8));
                 (2, 3, div (of_int 3) (of_int 8));
                 (3, 1, div (of_int 1) (of_int 8))]
    | Dados _ r => opcion = "3" /\ nodos_hoja r = 36
    | Adios => opcion = "0"
    | NoValida =>
        opcion <> "1" /\ opcion <> "2" /\ opcion <> "3" /\ opcion <> "0"
    end.
Proof.
  intros Hl. unfold menu.
  destruct (String.eqb_spec opcion "1") as [H1 | H1].
  { rewrite crear_arbol_monedas_ok by lia. cbn [bind].
    destruct (visualizar_arbol_ok (arbol_monedas (Z.to_nat 2))
                "Árbol de Probabilidad - 2 Lanzamientos de Moneda"
                "arbol_2_monedas.png" (completo_arbol_monedas _))
      as (L & sizes & etqs & _ & _ & _ & _ & ->).
    cbn [bind].
    destruct (analizar_grafo_total (arbol_monedas (Z.to_nat 2)) "moneda")
      as (dist & ->).
    cbn [bind]. eexists. split; [reflexivity |]. cbn [nodos_hoja].
    split; [exact H1 |]. split.
    - rewrite hojas_de_arbol_monedas, length_hojas_bajo. reflexivity.
    - rewrite espacio_muestral_arbol_monedas. reflexivity. }
  destruct (String.eqb_spec opcion "2") as [H2 | H2].
  { rewrite crear_arbol_monedas_ok by lia. cbn [bind].
    destruct (visualizar_arbol_ok (arbol_monedas (Z.to_nat 3))
                "Árbol de Probabilidad - 3 Lanzamientos de Moneda"
                "arbol_3_monedas.png" (completo_arbol_monedas _))
      as (L & sizes & etqs & _ & _ & _ & _ & ->).
    cbn [bind].
    destruct (analizar_grafo_total (arbol_monedas (Z.to_nat 3)) "moneda")
      as (dist & ->).
    cbn [bind]. rewrite distribucion_caras_arbol_monedas.
    cbn [bind]. eexists. split; [reflexivity |]. cbn [nodos_hoja].
    split; [exact H2 |]. split.
    - rewrite hojas_de_arbol_monedas, length_hojas_bajo. reflexivity.
    - reflexivity. }
  destruct (String.eqb_spec opcion "3") as [H3 | H3].
  { destruct (visualizar_arbol_ok crear_arbol_dado
                "Árbol de Probabilidad - 2 Lanzamientos de Dado "
                "arbol_dados_completo.png" completo_crear_arbol_dado)
      as (L & sizes & etqs & _ & _ & _ & _ & ->).
    cbn [bind].
    destruct (analizar_grafo_total crear_arbol_dado "dado") as (dist & ->).
    cbn [bind]. eexists. split; [reflexivity |]. cbn [nodos_hoja].
    split; [exact H3 |]. vm_compute. reflexivity. }
  destruct (String.eqb_spec opcion "0") as [H0 | H0].
  { eexists. split; [reflexivity | exact H0]. }
  eexists. split; [reflexivity |]. repeat split; assumption.
Qed.

Lemma menu_dispatch_witness :
  (3 < 1000)%nat /\
  (exists s, @menu binary64 _ 1000 "2" = Ok s) /\
  @menu binary64 _ 1000 "1 " = Ok NoValida.
Proof.
  assert (H : (3 < 1000)%nat) by lia.
  split; [exact H |]. split.
  - destruct (menu_dispatch binary64 _ 1000 "2" H) as (s & Hs & _).
    exists s. exact Hs.
  - destruct (menu_dispatch binary64 _ 1000 "1 " H) as (s & Hs & Hm).
    rewrite Hs. destruct s as [d r omega | d r caras | d r | |].
    + destruct Hm as [Hm _]. discriminate Hm.
    + destruct Hm as [Hm _]. discriminate Hm.
    + destruct Hm as [Hm _]. discriminate Hm.
    + discriminate Hm.
    + reflexivity.
Defined.

Lemma drawing_positions_distinct_witness :
  (2 = 2 \/ 2 = 3) /\ 2 < Z.of_nat 1000 /\
  (exists (G : @DiGraph binary64) d,
      crear_arbol_monedas 1000 2 = Ok G /\
      visualizar_arbol G "t" "f" = Ok d /\
      puntos_distintos (map snd (pos d)) = true).
Proof.
  assert (H2 : 2 = 2 \/ 2 = 3) by (now left).
  assert (Hl : 2 < Z.of_nat 1000) by lia.
  split; [exact H2 |]. split; [exact Hl |].
  exact (proj1 drawing_positions_distinct 1000%nat 2 "t" "f" H2 Hl).
Defined.

(** ** The texts of the coin drawing *)

Lemma map_result_In {X Y : Type} (f : X -> result Y) (xs : list X)
  (ys : list Y) (y : Y) :
  map_result f xs = Ok ys -> In y ys -> exists x, In x xs /\ f x = Ok y.
Proof.
  revert ys. induction xs as [|x0 xs IH]; intros ys H Hy; cbn [map_result] in H.
  - injection H as <-. contradiction.
  - destruct (f x0) as [y0 |] eqn:E0; [| discriminate]. cbn [bind] in H.
    destruct (map_result f xs) as [ys' |]; [| discriminate].
    cbn [bind] in H. injection H as <-. destruct Hy as [<- | Hy].
    + exists x0. split; [now left | exact E0].
    + destruct (IH ys' eq_refl Hy) as (x & Hx & Hfx).
      exists x. split; [now right | exact Hfx].
Qed.

Lemma de_monedas_cons (c : ascii) (w : string) :
  c = "C"%char \/ c = "S"%char -> de_monedas w -> de_monedas (String c w).
Proof. intros Hc Hw. unfold de_monedas. cbn. now constructor. Qed.

Section Texts.
Context {A : Arith} {GA : Grafica A}.

(** A label below [res] is [res] followed by choices. *)
Lemma nodos_bajo_palabra (k : nat) :
  forall (res : string) (p : num) (lv : Z) (l : string),
    In l (map fst (nodos_bajo k res p lv)) ->
    exists w, l = res ++ w /\ de_monedas w.
Proof.
  induction k as [|k IH]; intros res p lv l Hin; [contradiction |].
  cbn [nodos_bajo] in Hin. rewrite map_app in Hin. apply in_app_iff in Hin.
  assert (Hstep : forall c, c = "C"%char \/ c = "S"%char ->
            In l (map fst ((res ++ String c "", nodo_moneda p lv)
                             :: nodos_bajo k (res ++ String c "")
                                  (mul p lit_0_5) (lv + 1))) ->
            exists w, l = res ++ w /\ de_monedas w).
  { intros c Hc [<- | H].
    - exists (String c ""). split; [reflexivity |].
      apply de_monedas_cons; [exact Hc | constructor].
    - apply IH in H. destruct H as (w & -> & Hw). exists (String c w).
      split; [apply append_assoc | now apply de_monedas_cons]. }
  destruct Hin as [Hin | Hin]; [apply (Hstep "C"%char) | apply (Hstep "S"%char)];
    auto.
Qed.

End Texts.

(** X17.  In the drawing of the coin tree every node has a text.  The text
    of the root is fixed; the text of any other node is its sequence of
    choices, a line break, and [P=] with the product of as many factors 0.5
    as there are choices, in the format [.4f]. *)
Theorem coin_drawing_labels (A : Arith) (GA : Grafica A) (limit : nat)
  (n : Z) (t f : string) :
  0 <= n -> n < Z.of_nat limit ->
  exists G d,
    crear_arbol_monedas limit n = Ok G /\
    visualizar_arbol G t f = Ok d /\
    map fst (etiquetas d) = labels G /\
    forall l txt, In (l, txt) (etiquetas d) ->
      (l = "Inicio" /\ txt = "Inicio" ++ salto ++ "P=1.0") \/
      (exists w, l = "Inicio" ++ w /\ de_monedas w /\
                 1 <= Z.of_nat (String.length w) <= n /\
                 txt = w ++ salto ++ "P="
                       ++ formato 4 (potencia lit_0_5 (String.length w))).
Proof.
  intros Hn Hl. exists (arbol_monedas (Z.to_nat n)).
  pose proof (drawing_needs_level_and_probability_aux
                (arbol_monedas (Z.to_nat n)) t f
                (completo_arbol_monedas _)) as (d & Hd & Hfst & Hetq).
  exists d. split; [now apply crear_arbol_monedas_ok |].
  split; [exact Hd |]. split; [exact Hfst |].
  intros l txt Hin. apply (map_result_In _ _ _ _ Hetq) in Hin.
  destruct Hin as (l' & Hl' & Hf).
  destruct (etiqueta_de (arbol_monedas (Z.to_nat n)) l') as [txt' |] eqn:E;
    [| discriminate].
  cbn [bind] in Hf. injection Hf as -> ->.
  unfold etiqueta_de in E.
  destruct (String.eqb_spec l "Inicio") as [-> | Hne].
  - left. injection E as <-. split; reflexivity.
  - right. apply In_labels in Hl'. destruct Hl' as (a & Ha).
    unfold prob_de in E.
    rewrite (node_In _ l a (NoDup_arbol_monedas _) Ha) in E. cbn [bind] in E.
    cbn [nodes arbol_monedas] in Ha. destruct Ha as [Heq | Ha];
      [injection Heq as <- <-; contradiction |].
    pose proof (nodos_bajo_palabra _ _ _ _ l (in_map fst _ _ Ha))
      as (w & -> & Hw).
    apply nodos_bajo_attrs in Ha. destruct Ha as (j & Hj & Hlen & ->).
    rewrite length_append in Hlen. assert (Hjw : j = String.length w) by lia.
    subst j. cbn [prob bind] in E. injection E as <-.
    exists w. split; [reflexivity |]. split; [exact Hw |]. split; [lia |].
    rewrite prefix_empty, (replace_de_monedas w Hw). reflexivity.
Qed.

Lemma coin_drawing_labels_witness :
  0 <= 2 /\ 2 < Z.of_nat 1000 /\
  exists (G : @DiGraph binary64) d,
    crear_arbol_monedas 1000 2 = Ok G /\
    visualizar_arbol G "t" "f" = Ok d /\
    map fst (etiquetas d) = labels G.
Proof.
  split; [lia |]. split; [lia |].
  destruct (coin_drawing_labels binary64 _ 1000%nat 2 "t" "f")
    as (G & d & HG & Hd & Hfst & _); [lia | lia |].
  exists G, d. split; [exact HG |]. split; [exact Hd | exact Hfst].
Defined.
